(** * konnect-sdk: request execution, error classification and result envelope

    A shallow embedding of the request pipeline of the Konnect SDK:
    - [utils/request]  : [makeRequest], [handleErrorResponse], [sleep]
    - [utils/response] : [wrapResponse]
    - [utils/validation] : [validateConfig]
    - [errors]         : [KonnectSDKError] and its three subclasses
    - [index]          : the [KonnectSDK] constructor and its private [request]

    Asynchronous code is modelled sequentially: an [await] is the point where
    the awaited promise settles, a rejected promise is a raised value.  The
    observable effects of a call (timers armed and cleared, transport calls,
    sleeps) are recorded, in program order, in a trace of events. *)

From Stdlib Require Import ZArith QArith List String Ascii Bool Lia.
From Stdlib Require Import DecimalString.
Import ListNotations.

Set Warnings "-register-all".

Local Open Scope string_scope.
Local Open Scope Z_scope.

(* ================================================================== *)
(** ** JavaScript values *)
(* ================================================================== *)

(** The values that flow through the pipeline are what [response.json()]
    produces, plus [undefined].  [VNum n] is the whole number [n], taken
    below 10^21 in magnitude, where [Number::toString] prints every digit
    (status codes and milliseconds are of that kind); strings are sequences
    of code units below 256.  An object is the list of its own properties,
    first binding of a key first. *)
Inductive jsval : Type :=
| VUndefined
| VNull
| VBool (b : bool)
| VNum (n : Z)
| VStr (s : string)
| VArr (items : list jsval)
| VObj (props : list (string * jsval)).

(** JavaScript truthiness, which is what [||] and [&&] and [!] test. *)
Definition truthy (v : jsval) : bool :=
  match v with
  | VUndefined | VNull => false
  | VBool b => b
  | VNum n => negb (n =? 0)
  | VStr s => negb (s =? "")%string
  | VArr _ | VObj _ => true
  end.

(** [a || b] *)
Definition js_or (a b : jsval) : jsval := if truthy a then a else b.

Fixpoint assoc (k : string) (ps : list (string * jsval)) : option jsval :=
  match ps with
  | [] => None
  | (k', v) :: rest => if (k =? k')%string then Some v else assoc k rest
  end.

(** Decimal rendering of an integer-valued number, as [Number::toString]
    prints every integer of magnitude below 10^21. *)
Definition string_of_Z (n : Z) : string :=
  NilZero.string_of_int (Z.to_int n).

(** [sep.join(parts)] *)
Fixpoint join (sep : string) (parts : list string) : string :=
  match parts with
  | [] => ""
  | [p] => p
  | p :: rest => p ++ sep ++ join sep rest
  end.

(** Sequencing of partial results. *)
Fixpoint sequence {A} (l : list (option A)) : option (list A) :=
  match l with
  | [] => Some []
  | None :: _ => None
  | Some a :: rest =>
      match sequence rest with
      | Some r => Some (a :: r)
      | None => None
      end
  end.

(** [ToString(v)], the coercion applied by template literals and by the
    [Error] constructor to a message that is not [undefined].  [None] stands
    for the [TypeError] that the coercion raises on an object whose own
    [toString] property shadows the inherited method (a parsed body holds no
    callable value, so the object cannot be converted to a primitive).  In an
    array, [null] and [undefined] elements render as the empty string. *)
Fixpoint ToString (v : jsval) : option string :=
  match v with
  | VUndefined => Some "undefined"
  | VNull => Some "null"
  | VBool true => Some "true"
  | VBool false => Some "false"
  | VNum n => Some (string_of_Z n)
  | VStr s => Some s
  | VArr items =>
      option_map (join ",")
        (sequence (map (fun x =>
                          match x with
                          | VUndefined | VNull => Some ""
                          | _ => ToString x
                          end) items))
  | VObj props =>
      match assoc "toString" props with
      | Some _ => None
      | None => Some "[object Object]"
      end
  end.

(* ================================================================== *)
(** ** Errors (module [errors]) *)
(* ================================================================== *)

(** An instance of [KonnectSDKError].  The base constructor resets the
    prototype to [KonnectSDKError.prototype], so instances of the three
    subclasses differ from base instances by their [name] only.  [code] and
    [details] are declared [string] and [unknown] but are stored as passed;
    [statusCode] is [None] when [undefined]. *)
Record KonnectSDKError : Type := mkSDKError {
  name : string;
  message : string;
  statusCode : option Z;
  code : jsval;
  details : jsval
}.

(** What a [throw] or a rejected promise carries. *)
Inductive thrown : Type :=
| ThrowSDK (e : KonnectSDKError)           (* instanceof KonnectSDKError *)
| ThrowError (ename emessage : string)     (* any other instance of Error *)
| ThrowValue (v : jsval).                  (* a value that is no Error *)

(** Computations that may raise. *)
Definition exn (A : Type) : Type := (thrown + A)%type.

Definition ret {A} (a : A) : exn A := inr a.
Definition raise {A} (t : thrown) : exn A := inl t.
Definition bind {A B} (m : exn A) (k : A -> exn B) : exn B :=
  match m with
  | inl t => inl t
  | inr a => k a
  end.

Notation "x <- m ;; k" := (bind m (fun x => k))
  (at level 61, m at next level, right associativity).

(** The wording of the engine's [TypeError]s (V8's); nothing below depends on
    the text. *)
Definition TypeError_read_null (base prop : string) : thrown :=
  ThrowError "TypeError"
    ("Cannot read properties of " ++ base ++ " (reading '" ++ prop ++ "')").

Definition TypeError_to_primitive : thrown :=
  ThrowError "TypeError" "Cannot convert object to primitive value".

(** [v.prop] for a property that no prototype defines ([message],
    [paymentId], [code]): reading from [null] or [undefined] raises, any other
    value yields its own property or [undefined]. *)
Definition get_prop (v : jsval) (prop : string) : exn jsval :=
  match v with
  | VUndefined => raise (TypeError_read_null "undefined" prop)
  | VNull => raise (TypeError_read_null "null" prop)
  | VObj props =>
      match assoc prop props with
      | Some x => ret x
      | None => ret VUndefined
      end
  | _ => ret VUndefined
  end.

Definition to_string (v : jsval) : exn string :=
  match ToString v with
  | Some s => ret s
  | None => raise TypeError_to_primitive
  end.

(** [new Error(message)]: the own message property is [ToString(message)]
    unless [message] is [undefined], when the inherited empty message shows. *)
Definition Error_message (msg : jsval) : exn string :=
  match msg with
  | VUndefined => ret ""
  | _ => to_string msg
  end.

(** [new KonnectSDKError(message, statusCode, code, details)] *)
Definition new_KonnectSDKError (msg : jsval) (status : option Z)
    (c d : jsval) : exn KonnectSDKError :=
  m <- Error_message msg ;;
  ret (mkSDKError "KonnectSDKError" m status c d).

(** [new PaymentNotFoundError(paymentId)] *)
Definition new_PaymentNotFoundError (paymentId : jsval) : exn KonnectSDKError :=
  id <- to_string paymentId ;;
  e <- new_KonnectSDKError (VStr ("Payment with ID " ++ id ++ " not found"))
         (Some 404) (VStr "PAYMENT_NOT_FOUND") VUndefined ;;
  ret (mkSDKError "PaymentNotFoundError" (message e) (statusCode e)
         (code e) (details e)).

(** [new AuthenticationError()] *)
Definition new_AuthenticationError : exn KonnectSDKError :=
  e <- new_KonnectSDKError (VStr "Invalid or missing API key")
         (Some 401) (VStr "INVALID_AUTH") VUndefined ;;
  ret (mkSDKError "AuthenticationError" (message e) (statusCode e)
         (code e) (details e)).

(** [new ValidationError(message, details)] *)
Definition new_ValidationError (msg d : jsval) : exn KonnectSDKError :=
  e <- new_KonnectSDKError msg (Some 400) (VStr "VALIDATION_ERROR") d ;;
  ret (mkSDKError "ValidationError" (message e) (statusCode e)
         (code e) (details e)).

(** The serialised error of the result envelope (type [KonnectError]). *)
Record KonnectError : Type := mkKonnectError {
  err_message : string;
  err_statusCode : option Z;
  err_code : jsval;
  err_details : jsval
}.

(** [KonnectSDKError.prototype.toJSON] *)
Definition toJSON (e : KonnectSDKError) : KonnectError :=
  mkKonnectError (message e) (statusCode e) (code e) (details e).

(** [throw e], for an error built by one of the constructors above. *)
Definition throw_new (m : exn KonnectSDKError) : thrown :=
  match m with
  | inl t => t
  | inr e => ThrowSDK e
  end.

(* ================================================================== *)
(** ** The transport and the trace of effects *)
(* ================================================================== *)

(** A settled [Response]: its status line and what [response.json()] settles
    to (the parsed body, or the raised parse failure). *)
Record Response : Type := mkResponse {
  status : Z;
  statusText : string;
  json : exn jsval
}.

(** [response.ok] is, by the Fetch standard, a status in 200..299. *)
Definition ok (response : Response) : bool :=
  (200 <=? status response) && (status response <=? 299).

(** The effects of a call, in program order.  [EvSetTimeout ms] is the arming
    of the deadline timer [setTimeout(() => controller.abort(), ms)],
    [EvClearTimeout] is [clearTimeout(timeoutId)], [EvFetch url] a transport
    call and [EvSleep ms] an awaited [sleep(ms)]. *)
Inductive event : Type :=
| EvSetTimeout (ms : Z)
| EvClearTimeout
| EvFetch (url : string)
| EvSleep (ms : Z).

(** An effectful computation: the events it performed and how it ended. *)
Definition io (A : Type) : Type := (list event * exn A)%type.

(** [sleep(ms)] *)
Definition sleep (ms : Z) : list event := [EvSleep ms].

(* ================================================================== *)
(** ** The classifier: [handleErrorResponse] *)
(* ================================================================== *)

(** The function never returns; its result is the value it throws. *)
Definition handleErrorResponse (response : Response) : thrown :=
  let errorData :=
    match json response with
    | inr parsed => parsed
    | inl _ => VObj [("message", VStr (statusText response))]
    end in
  let data := errorData in
  if status response =? 401 then
    throw_new new_AuthenticationError
  else if status response =? 404 then
    throw_new (paymentId <- get_prop data "paymentId" ;;
               new_PaymentNotFoundError (js_or paymentId (VStr "unknown")))
  else if status response =? 400 then
    throw_new (msg <- get_prop data "message" ;;
               new_ValidationError (js_or msg (VStr "Validation failed")) data)
  else
    throw_new (msg <- get_prop data "message" ;;
               c <- get_prop data "code" ;;
               new_KonnectSDKError
                 (js_or msg
                    (VStr ("HTTP " ++ string_of_Z (status response) ++ ": "
                           ++ statusText response)))
                 (Some (status response)) c data).

(* ================================================================== *)
(** ** The request executor: [makeRequest] *)
(* ================================================================== *)

(** The [config] argument of [makeRequest] with whole numbers in both fields
    (milliseconds and a count of attempts); [RequestConfigN] below admits
    any number of attempts. *)
Record RequestConfig : Type := mkConfig {
  timeout : Z;
  retryAttempts : Z
}.

(** The test of the [catch] block that rethrows:
    [error instanceof KonnectSDKError && error.statusCode], then
    [statusCode >= 400 && statusCode < 500 && statusCode !== 429]. *)
Definition is_client_error (error : thrown) : bool :=
  match error with
  | ThrowSDK e =>
      match statusCode e with
      | Some sc =>
          negb (sc =? 0) && ((400 <=? sc) && (sc <? 500) && negb (sc =? 429))
      | None => false
      end
  | _ => false
  end.

(** The [try] block of one attempt, given what the transport call settles to. *)
Definition try_block (url : string) (fetched : exn Response) : io jsval :=
  match fetched with
  | inl failure => ([EvFetch url], raise failure)
  | inr response =>
      ([EvFetch url; EvClearTimeout],
       if negb (ok response) then raise (handleErrorResponse response)
       else json response)
  end.

(** How the [for] loop is left. *)
Inductive loop_exit : Type :=
| Returned (body : jsval)                 (* [return await response.json()] *)
| Rethrown (error : thrown)               (* [throw error] in the catch block *)
| Fallthrough (lastError : option thrown). (* [break], or the loop test fails *)

Section Executor.

(** What the transport call of each attempt settles to.  The URL and the
    options (method, headers, body, abort signal) are the same in every
    attempt and take no part in the control flow; the options are left
    out. *)
Variable fetch : Z -> exn Response.
Variable url : string.
Variable config : RequestConfig.

(** [for (let attempt = 0; attempt < config.retryAttempts; attempt++)],
    entered with [remaining] iterations still allowed by the loop test.
    The delay [2 ** attempt * 1000] is an integer that double arithmetic
    computes exactly for every attempt below 1015. *)
Fixpoint retry_loop (remaining : nat) (attempt : Z)
    (lastError : option thrown) : list event * loop_exit :=
  match remaining with
  | O => ([], Fallthrough lastError)
  | S remaining' =>
      match try_block url (fetch attempt) with
      | (evs, inr body) => (evs, Returned body)
      | (evs, inl error) =>
          let lastError := Some error in
          if is_client_error error then (evs, Rethrown error)
          else if attempt =? retryAttempts config - 1 then
            (evs, Fallthrough lastError)
          else
            let '(evs', r) :=
              retry_loop remaining' (attempt + 1) lastError in
            ((evs ++ sleep (2 ^ attempt * 1000) ++ evs')%list, r)
      end
  end.

(** [lastError?.message] *)
Definition lastError_message (lastError : option thrown) : jsval :=
  match lastError with
  | None => VUndefined
  | Some (ThrowSDK e) => VStr (message e)
  | Some (ThrowError _ m) => VStr m
  | Some (ThrowValue VUndefined) | Some (ThrowValue VNull) => VUndefined
  | Some (ThrowValue (VObj props)) =>
      match assoc "message" props with
      | Some x => x
      | None => VUndefined
      end
  | Some (ThrowValue _) => VUndefined
  end.

Definition makeRequest : io jsval :=
  let '(evs, r) :=
    retry_loop (Z.to_nat (retryAttempts config)) 0 None in
  match r with
  | Returned body => (EvSetTimeout (timeout config) :: evs, ret body)
  | Rethrown error => (EvSetTimeout (timeout config) :: evs, raise error)
  | Fallthrough lastError =>
      ((EvSetTimeout (timeout config) :: evs ++ [EvClearTimeout])%list,
       raise (throw_new
                (new_KonnectSDKError
                   (js_or (lastError_message lastError)
                      (VStr "Request failed after retries"))
                   None (VStr "REQUEST_FAILED") VUndefined)))
  end.

End Executor.

(* ================================================================== *)
(** ** The result envelope: [wrapResponse] *)
(* ================================================================== *)

(** [ApiResponse<T>]: the [data] field holds a value ([VNull] for [null]),
    the [error] field an error or [null] ([None]). *)
Record ApiResponse : Type := mkApiResponse {
  data : jsval;
  error : option KonnectError
}.

(** [try { body } catch (error) { handler }] *)
Definition try_catch {A} (body : exn A) (handler : thrown -> exn A) : exn A :=
  match body with
  | inl error => handler error
  | inr a => ret a
  end.

(** [fn] is given by what calling and awaiting it does. *)
Definition wrapResponse (fn : io jsval) : io ApiResponse :=
  let '(evs, outcome) := fn in
  (evs,
   try_catch
     (d <- outcome ;;
      ret (mkApiResponse d None))
     (fun error =>
        match error with
        | ThrowSDK e => ret (mkApiResponse VNull (Some (toJSON e)))
        | _ =>
            ret (mkApiResponse VNull
                   (Some (mkKonnectError
                            match error with
                            | ThrowError _ m => m
                            | _ => "Unknown error"
                            end
                            None (VStr "UNKNOWN_ERROR") VUndefined)))
        end)).

(* ================================================================== *)
(** ** Configuration and the client ([validateConfig], [KonnectSDK]) *)
(* ================================================================== *)

Inductive Environment : Type := sandbox | production.

(** [BASE_URLS] *)
Definition BASE_URLS (env : Environment) : string :=
  match env with
  | sandbox => "https://api.sandbox.konnect.network/api/v2"
  | production => "https://api.konnect.network/api/v2"
  end.

(** [KonnectConfig]; an optional field is [None] when absent. *)
Record KonnectConfig : Type := mkKonnectConfig {
  cfg_apiKey : string;
  cfg_environment : option Environment;
  cfg_timeout : option Z;
  cfg_retryAttempts : option Z;
  cfg_defaults : option jsval
}.

(** White space and line terminators among the code units below 256. *)
Definition is_white_space (c : ascii) : bool :=
  let n := nat_of_ascii c in
  (Nat.eqb n 9 || Nat.eqb n 10 || Nat.eqb n 11 || Nat.eqb n 12
   || Nat.eqb n 13 || Nat.eqb n 32 || Nat.eqb n 160)%bool.

Fixpoint trim_start (s : string) : string :=
  match s with
  | EmptyString => EmptyString
  | String c rest => if is_white_space c then trim_start rest else s
  end.

Fixpoint trim_end (s : string) : string :=
  match s with
  | EmptyString => EmptyString
  | String c rest =>
      match trim_end rest with
      | EmptyString => if is_white_space c then EmptyString
                       else String c EmptyString
      | rest' => String c rest'
      end
  end.

(** [s.trim()] *)
Definition trim (s : string) : string := trim_end (trim_start s).

(** Truthiness of an optional whole number, and [x || d] on one; for
    numbers that are not whole, [NaN] among them, see [number_or] below. *)
Definition num_truthy (x : option Z) : bool :=
  match x with
  | Some n => negb (n =? 0)
  | None => false
  end.

Definition num_or (x : option Z) (d : Z) : Z :=
  match x with
  | Some n => if negb (n =? 0) then n else d
  | None => d
  end.

Definition num_lt0 (x : option Z) : bool :=
  match x with
  | Some n => n <? 0
  | None => false
  end.

(** [validateConfig]: returns normally ([tt]) or throws. *)
Definition validateConfig (config : KonnectConfig) : exn unit :=
  if (cfg_apiKey config =? "")%string
     || (trim (cfg_apiKey config) =? "")%string
  then raise (throw_new (new_ValidationError (VStr "API key is required")
                           VUndefined))
  else if num_truthy (cfg_timeout config) && num_lt0 (cfg_timeout config)
  then raise (throw_new (new_ValidationError
                           (VStr "Timeout must be a positive number")
                           VUndefined))
  else if num_truthy (cfg_retryAttempts config)
          && num_lt0 (cfg_retryAttempts config)
  then raise (throw_new (new_ValidationError
                           (VStr "Retry attempts must be a positive number")
                           VUndefined))
  else ret tt.

(** The private fields of a [KonnectSDK] instance. *)
Record KonnectSDK : Type := mkKonnectSDK {
  sdk_apiKey : string;
  sdk_baseUrl : string;
  sdk_timeout : Z;
  sdk_retryAttempts : Z;
  sdk_defaults : jsval
}.

(** [new KonnectSDK(config)] *)
Definition new_KonnectSDK (config : KonnectConfig) : exn KonnectSDK :=
  _ <- validateConfig config ;;
  ret (mkKonnectSDK
         (cfg_apiKey config)
         (BASE_URLS match cfg_environment config with
                    | Some env => env
                    | None => sandbox
                    end)
         (num_or (cfg_timeout config) 30000)
         (num_or (cfg_retryAttempts config) 3)
         match cfg_defaults config with
         | Some d => js_or d (VObj [])
         | None => VObj []
         end).

(** [KonnectSDK.prototype.request(endpoint, options)] *)
Definition request (this : KonnectSDK) (fetch : Z -> exn Response)
    (endpoint : string) : io jsval :=
  let url := sdk_baseUrl this ++ endpoint in
  makeRequest fetch url
    (mkConfig (sdk_timeout this) (sdk_retryAttempts this)).

(** [validatePaymentId] *)
Definition validatePaymentId (paymentId : string) : exn unit :=
  if (paymentId =? "")%string || (trim paymentId =? "")%string
  then raise (throw_new (new_ValidationError (VStr "paymentId is required")
                           VUndefined))
  else ret tt.

(** [KonnectSDK.prototype.getPaymentDetails(paymentId)] *)
Definition getPaymentDetails (this : KonnectSDK) (fetch : Z -> exn Response)
    (paymentId : string) : io ApiResponse :=
  wrapResponse
    match validatePaymentId paymentId with
    | inl error => ([], raise error)
    | inr _ => request this fetch ("/payments/" ++ paymentId)
    end.

(** [KonnectSDK.prototype.getPaymentDetailsOrThrow(paymentId)], which
    checks the identifier inline. *)
Definition getPaymentDetailsOrThrow (this : KonnectSDK)
    (fetch : Z -> exn Response) (paymentId : string) : io jsval :=
  if (paymentId =? "")%string || (trim paymentId =? "")%string
  then ([], raise (throw_new (new_ValidationError
                                (VStr "paymentId is required") VUndefined)))
  else request this fetch ("/payments/" ++ paymentId).

(** [v === s] for a string literal [s]. *)
Definition strict_eq_string (v : jsval) (s : string) : bool :=
  match v with
  | VStr x => (x =? s)%string
  | _ => false
  end.

(** [KonnectSDK.prototype.isPaymentCompleted(paymentId)] *)
Definition isPaymentCompleted (this : KonnectSDK) (fetch : Z -> exn Response)
    (paymentId : string) : io ApiResponse :=
  wrapResponse
    (let '(evs, settled) := request this fetch ("/payments/" ++ paymentId) in
     (evs,
      result <- settled ;;
      payment <- get_prop result "payment" ;;
      st <- get_prop payment "status" ;;
      ret (VBool (strict_eq_string st "completed")))).

(** [s.includes(sub)] *)
Fixpoint includes (s sub : string) : bool :=
  prefix sub s
  || match s with
     | EmptyString => false
     | String _ rest => includes rest sub
     end.

(** [KonnectSDK.prototype.getEnvironment()] *)
Definition getEnvironment (this : KonnectSDK) : Environment :=
  if includes (sdk_baseUrl this) "sandbox" then sandbox else production.

(* ================================================================== *)
(** ** Regular expressions and [isValidEmail] *)
(* ================================================================== *)

(** The fragment of regular expressions that the email pattern uses, over
    code units; a character class is given by its membership test. *)
Inductive regex : Type :=
| RNone
| REps
| RClass (member : ascii -> bool)
| RCat (r1 r2 : regex)
| RAlt (r1 r2 : regex)
| RStar (r : regex).

(** [r+] *)
Definition RPlus (r : regex) : regex := RCat r (RStar r).

Fixpoint nullable (r : regex) : bool :=
  match r with
  | RNone => false
  | REps => true
  | RClass _ => false
  | RCat r1 r2 => nullable r1 && nullable r2
  | RAlt r1 r2 => nullable r1 || nullable r2
  | RStar _ => true
  end.

(** The derivative of [r] by the code unit [c]. *)
Fixpoint deriv (c : ascii) (r : regex) : regex :=
  match r with
  | RNone => RNone
  | REps => RNone
  | RClass member => if member c then REps else RNone
  | RCat r1 r2 =>
      if nullable r1
      then RAlt (RCat (deriv c r1) r2) (deriv c r2)
      else RCat (deriv c r1) r2
  | RAlt r1 r2 => RAlt (deriv c r1) (deriv c r2)
  | RStar r1 => RCat (deriv c r1) (RStar r1)
  end.

(** [/^r$/.test(s)]: the whole of [s] matches [r]. *)
Fixpoint regex_test (r : regex) (s : string) : bool :=
  match s with
  | EmptyString => nullable r
  | String c rest => regex_test (deriv c r) rest
  end.

(** The class [[^\s@]]; [\s] is the white space of [is_white_space]. *)
Definition not_space_nor_at (c : ascii) : bool :=
  negb (is_white_space c) && negb (Ascii.eqb c "@").

(** [/^[^\s@]+@[^\s@]+\.[^\s@]+$/] *)
Definition emailRegex : regex :=
  RCat (RPlus (RClass not_space_nor_at))
    (RCat (RClass (Ascii.eqb "@"))
       (RCat (RPlus (RClass not_space_nor_at))
          (RCat (RClass (Ascii.eqb "."))
             (RPlus (RClass not_space_nor_at))))).

(** [isValidEmail(email)] *)
Definition isValidEmail (email : string) : bool :=
  regex_test emailRegex email.

(* ================================================================== *)
(** ** Payment initialization ([mergeWithDefaults], [initPayment]) *)
(* ================================================================== *)

(** The properties that [{...v}] copies: the own properties of an object,
    the indexed elements of an array, the indexed code units of a string,
    nothing for any other value. *)
Fixpoint indexed (i : nat) (items : list jsval) : list (string * jsval) :=
  match items with
  | [] => []
  | x :: rest => (string_of_Z (Z.of_nat i), x) :: indexed (S i) rest
  end.

Definition own_props (v : jsval) : list (string * jsval) :=
  match v with
  | VObj props => props
  | VArr items => indexed 0 items
  | VStr s =>
      indexed 0 (map (fun c => VStr (String c EmptyString))
                   (list_ascii_of_string s))
  | _ => []
  end.

(** The defaults that [mergeWithDefaults] copies, in the order of the object
    literal. *)
Definition default_keys : list string :=
  ["receiverWalletId"; "token"; "type"; "description";
   "acceptedPaymentMethods"; "lifespan"; "checkoutForm";
   "addPaymentFeesToAmount"; "webhook"; "silentWebhook"; "successUrl";
   "failUrl"; "theme"].

(** [key: o.key] for each of the keys. *)
Fixpoint read_props (o : jsval) (keys : list string)
  : exn (list (string * jsval)) :=
  match keys with
  | [] => ret []
  | k :: rest =>
      v <- get_prop o k ;;
      others <- read_props o rest ;;
      ret ((k, v) :: others)
  end.

(** [KonnectSDK.prototype.mergeWithDefaults(request)].  In the list of the
    properties of the result the spread properties of the request stand
    first: they were written last and hide the defaults of the same key. *)
Definition mergeWithDefaults (this : KonnectSDK) (req : jsval) : exn jsval :=
  defaults <- read_props (sdk_defaults this) default_keys ;;
  ret (VObj (own_props req ++ defaults)%list).

Section InitPayment.

(** Whether the number that a string converts to is at most 0
    ([StringToNumber(s) <= 0]); the conversion itself is not modelled. *)
Variable StringToNumber_le_0 : string -> bool.

(** [v <= 0] *)
Definition js_le_0 (v : jsval) : exn bool :=
  match v with
  | VUndefined => ret false
  | VNull => ret true
  | VBool b => ret (negb b)
  | VNum n => ret (n <=? 0)
  | VStr s => ret (StringToNumber_le_0 s)
  | VArr _ | VObj _ =>
      s <- to_string v ;;
      ret (StringToNumber_le_0 s)
  end.

(** [validateInitPaymentRequest] *)
Definition validateInitPaymentRequest (req : jsval) : exn unit :=
  wallet <- get_prop req "receiverWalletId" ;;
  if negb (truthy wallet) then
    raise (throw_new
             (new_ValidationError
                (VStr ("receiverWalletId is required "
                       ++ "(either in request or defaults)"))
                VUndefined))
  else
    amount <- get_prop req "amount" ;;
    nonpositive <- (if negb (truthy amount) then ret true
                    else js_le_0 amount) ;;
    if (nonpositive : bool) then
      raise (throw_new
               (new_ValidationError (VStr "amount must be a positive number")
                  VUndefined))
    else
      email <- get_prop req "email" ;;
      if truthy email then
        address <- to_string email ;;
        if negb (isValidEmail address) then
          raise (throw_new
                   (new_ValidationError (VStr "Invalid email format")
                      VUndefined))
        else ret tt
      else ret tt.

(** [KonnectSDK.prototype.initPaymentOrThrow(request)]; the body of the POST
    is [JSON.stringify(mergedRequest)], which raises for none of the values
    modelled and, like the other options, is left out. *)
Definition initPaymentOrThrow (this : KonnectSDK) (fetch : Z -> exn Response)
    (req : jsval) : io jsval :=
  match (mergedRequest <- mergeWithDefaults this req ;;
         validateInitPaymentRequest mergedRequest) with
  | inl failure => ([], raise failure)
  | inr _ => request this fetch "/payments/init-payment"
  end.

(** [KonnectSDK.prototype.initPayment(request)] *)
Definition initPayment (this : KonnectSDK) (fetch : Z -> exn Response)
    (req : jsval) : io ApiResponse :=
  wrapResponse
    match (mergedRequest <- mergeWithDefaults this req ;;
           validateInitPaymentRequest mergedRequest) with
    | inl failure => ([], raise failure)
    | inr _ => request this fetch "/payments/init-payment"
    end.

End InitPayment.

(* ================================================================== *)
(** ** Number-valued configurations *)
(* ================================================================== *)

(** The configuration types declare [timeout] and [retryAttempts] as
    [number], and nothing checks that they are whole.  A number here is a
    finite value, kept as a rational, [NaN], or an infinity; the arithmetic
    done on it below (a comparison with a whole attempt, and [x - 1]) is
    exact on doubles for every attempt that a run can reach.  The
    definitions above are the restriction of the ones below to whole
    numbers (lemmas [makeRequestN_of_Z] and [new_KonnectSDKN_of_Z]). *)
Inductive number : Type :=
| Finite (q : Q)
| NaN
| PosInfinity
| NegInfinity.

Definition of_Z (n : Z) : number := Finite (inject_Z n).

(** Truthiness: zero and [NaN] are falsy. *)
Definition number_truthy (x : number) : bool :=
  match x with
  | Finite q => negb (Qeq_bool q (inject_Z 0))
  | NaN => false
  | PosInfinity | NegInfinity => true
  end.

(** [x < 0] *)
Definition number_lt_0 (x : number) : bool :=
  match x with
  | Finite q => negb (Qle_bool (inject_Z 0) q)
  | NegInfinity => true
  | NaN | PosInfinity => false
  end.

(** [attempt < x], for a whole [attempt]. *)
Definition attempt_lt (attempt : Z) (x : number) : bool :=
  match x with
  | Finite q => negb (Qle_bool q (inject_Z attempt))
  | PosInfinity => true
  | NaN | NegInfinity => false
  end.

(** [attempt === x - 1], for a whole [attempt]. *)
Definition attempt_is_last (attempt : Z) (x : number) : bool :=
  match x with
  | Finite q => Qeq_bool (inject_Z attempt) (q - inject_Z 1)
  | NaN | PosInfinity | NegInfinity => false
  end.

(** The [config] argument of [makeRequest] with any number of attempts; the
    timeout, which is only handed to [setTimeout], stays the whole number of
    milliseconds that the events record. *)
Record RequestConfigN : Type := mkConfigN {
  timeoutN : Z;
  retryAttemptsN : number
}.

Section ExecutorN.

Variable fetch : Z -> exn Response.
Variable url : string.
Variable config : RequestConfigN.

(** The [for] loop of [makeRequest] with its test [attempt <
    config.retryAttempts] and its exit [attempt === config.retryAttempts - 1]
    as they are written.  The loop need not end (with [Infinity] attempts and
    a transport that keeps failing it does not): [fuel] bounds the number of
    iterations, and [None] says that it did not suffice. *)
Fixpoint retry_loopN (fuel : nat) (attempt : Z) (lastError : option thrown)
  : option (list event * loop_exit) :=
  if negb (attempt_lt attempt (retryAttemptsN config)) then
    Some ([], Fallthrough lastError)
  else
    match fuel with
    | O => None
    | S fuel' =>
        match try_block url (fetch attempt) with
        | (evs, inr body) => Some (evs, Returned body)
        | (evs, inl error) =>
            let lastError := Some error in
            if is_client_error error then Some (evs, Rethrown error)
            else if attempt_is_last attempt (retryAttemptsN config) then
              Some (evs, Fallthrough lastError)
            else
              match retry_loopN fuel' (attempt + 1) lastError with
              | Some (evs', r) =>
                  Some ((evs ++ sleep (2 ^ attempt * 1000) ++ evs')%list, r)
              | None => None
              end
        end
    end.

Definition makeRequestN (fuel : nat) : option (io jsval) :=
  match retry_loopN fuel 0 None with
  | None => None
  | Some (evs, Returned body) =>
      Some (EvSetTimeout (timeoutN config) :: evs, ret body)
  | Some (evs, Rethrown error) =>
      Some (EvSetTimeout (timeoutN config) :: evs, raise error)
  | Some (evs, Fallthrough lastError) =>
      Some ((EvSetTimeout (timeoutN config) :: evs ++ [EvClearTimeout])%list,
            raise (throw_new
                     (new_KonnectSDKError
                        (js_or (lastError_message lastError)
                           (VStr "Request failed after retries"))
                        None (VStr "REQUEST_FAILED") VUndefined)))
  end.

End ExecutorN.

(** [KonnectConfig] with number-valued [timeout] and [retryAttempts]. *)
Record KonnectConfigN : Type := mkKonnectConfigN {
  cfgN_apiKey : string;
  cfgN_environment : option Environment;
  cfgN_timeout : option number;
  cfgN_retryAttempts : option number;
  cfgN_defaults : option jsval
}.

(** [x && x < 0] and [x || d] on an optional number. *)
Definition negative (x : option number) : bool :=
  match x with
  | Some n => number_truthy n && number_lt_0 n
  | None => false
  end.

Definition number_or (x : option number) (d : number) : number :=
  match x with
  | Some n => if number_truthy n then n else d
  | None => d
  end.

(** [validateConfig] on a number-valued configuration. *)
Definition validateConfigN (config : KonnectConfigN) : exn unit :=
  if (cfgN_apiKey config =? "")%string
     || (trim (cfgN_apiKey config) =? "")%string
  then raise (throw_new (new_ValidationError (VStr "API key is required")
                           VUndefined))
  else if negative (cfgN_timeout config)
  then raise (throw_new (new_ValidationError
                           (VStr "Timeout must be a positive number")
                           VUndefined))
  else if negative (cfgN_retryAttempts config)
  then raise (throw_new (new_ValidationError
                           (VStr "Retry attempts must be a positive number")
                           VUndefined))
  else ret tt.

(** The private fields of an instance, number-valued. *)
Record KonnectSDKN : Type := mkKonnectSDKN {
  sdkN_apiKey : string;
  sdkN_baseUrl : string;
  sdkN_timeout : number;
  sdkN_retryAttempts : number;
  sdkN_defaults : jsval
}.

(** [new KonnectSDK(config)] on a number-valued configuration. *)
Definition new_KonnectSDKN (config : KonnectConfigN) : exn KonnectSDKN :=
  _ <- validateConfigN config ;;
  ret (mkKonnectSDKN
         (cfgN_apiKey config)
         (BASE_URLS match cfgN_environment config with
                    | Some env => env
                    | None => sandbox
                    end)
         (number_or (cfgN_timeout config) (of_Z 30000))
         (number_or (cfgN_retryAttempts config) (of_Z 3))
         match cfgN_defaults config with
         | Some d => js_or d (VObj [])
         | None => VObj []
         end).

(** A whole-number configuration and instance as number-valued ones. *)
Definition config_of_Z (config : KonnectConfig) : KonnectConfigN :=
  mkKonnectConfigN (cfg_apiKey config) (cfg_environment config)
    (option_map of_Z (cfg_timeout config))
    (option_map of_Z (cfg_retryAttempts config))
    (cfg_defaults config).

Definition sdk_of_Z (this : KonnectSDK) : KonnectSDKN :=
  mkKonnectSDKN (sdk_apiKey this) (sdk_baseUrl this)
    (of_Z (sdk_timeout this)) (of_Z (sdk_retryAttempts this))
    (sdk_defaults this).

(** A number that is positive: a positive finite value or [Infinity]. *)
Definition number_positive (x : number) : bool :=
  match x with
  | Finite q => negb (Qle_bool q (inject_Z 0))
  | PosInfinity => true
  | NaN | NegInfinity => false
  end.

(* ================================================================== *)
(** ** Vocabulary of the specification *)
(* ================================================================== *)

(** The transport calls and the sleeps of a trace, timers left out. *)
Definition schedule (evs : list event) : list event :=
  filter (fun ev => match ev with
                    | EvFetch _ | EvSleep _ => true
                    | _ => false
                    end) evs.

(** The durations slept, in order. *)
Fixpoint sleeps (evs : list event) : list Z :=
  match evs with
  | [] => []
  | EvSleep ms :: rest => ms :: sleeps rest
  | _ :: rest => sleeps rest
  end.

(** The number of transport calls. *)
Fixpoint fetch_count (evs : list event) : nat :=
  match evs with
  | [] => O
  | EvFetch _ :: rest => S (fetch_count rest)
  | _ :: rest => fetch_count rest
  end.

(** The schedule of [n] attempts starting at [attempt]: one transport call per
    attempt, a sleep of [2^attempt * 1000] ms between two consecutive
    attempts, nothing after the last one. *)
Fixpoint backoff_from (url : string) (attempt : Z) (n : nat) : list event :=
  match n with
  | O => []
  | S n' =>
      match n' with
      | O => [EvFetch url]
      | S _ => EvFetch url :: EvSleep (2 ^ attempt * 1000)
                 :: backoff_from url (attempt + 1) n'
      end
  end.

(** [1000; 2000; 4000; ...], [n] durations. *)
Definition backoff_delays (n : nat) : list Z :=
  map (fun i => 2 ^ Z.of_nat i * 1000) (seq 0 n).

(** A classified error with a status in 400..499 other than 429. *)
Definition client_error_status (e : KonnectSDKError) : Prop :=
  exists sc, statusCode e = Some sc /\ 400 <= sc <= 499 /\ sc <> 429.

(** A failure with status 429, with a status of 500 or more, or with no
    status code at all (a classified error without one, or a raised value
    that is no classified error). *)
Definition retryable_failure (failure : thrown) : Prop :=
  match failure with
  | ThrowSDK e =>
      statusCode e = None \/ statusCode e = Some 429
      \/ exists sc, statusCode e = Some sc /\ 500 <= sc
  | _ => True
  end.

(** Attempt [j] raises a failure that the catch block does not rethrow. *)
Definition retried (fetch : Z -> exn Response) (url : string) (j : Z) : Prop :=
  exists failure,
    snd (try_block url (fetch j)) = inl failure
    /\ is_client_error failure = false.

(** A transport outcome that is a retryable failure: the call fails at the
    transport level, or answers with status 429 or with 500 and above. *)
Definition retryable_outcome (fetched : exn Response) : Prop :=
  match fetched with
  | inl failure => retryable_failure failure
  | inr response => status response = 429 \/ 500 <= status response
  end.

(** [failure.message], the message that a raised value carries, read as the
    executor reads it. *)
Definition own_message (failure : thrown) : jsval :=
  lastError_message (Some failure).

(** Exactly one arm of an outcome is populated. *)
Definition exactly_one_arm (r : ApiResponse) : Prop :=
  (data r <> VNull /\ error r = None)
  \/ (data r = VNull /\ error r <> None).

(** The number of deadline timers armed. *)
Fixpoint timers_armed (evs : list event) : nat :=
  match evs with
  | [] => O
  | EvSetTimeout _ :: rest => S (timers_armed rest)
  | _ :: rest => timers_armed rest
  end.

(** Whether the deadline timer is pending after [evs], given whether it was
    before. *)
Fixpoint pending_after (pending : bool) (evs : list event) : bool :=
  match evs with
  | [] => pending
  | EvSetTimeout _ :: rest => pending_after true rest
  | EvClearTimeout :: rest => pending_after false rest
  | _ :: rest => pending_after pending rest
  end.

(** The number of transport calls issued while no deadline timer is pending,
    which no expiry can abort. *)
Fixpoint uncovered_fetches (pending : bool) (evs : list event) : nat :=
  match evs with
  | [] => O
  | EvSetTimeout _ :: rest => uncovered_fetches true rest
  | EvClearTimeout :: rest => uncovered_fetches false rest
  | EvFetch _ :: rest =>
      ((if pending then 0 else 1) + uncovered_fetches pending rest)%nat
  | EvSleep _ :: rest => uncovered_fetches pending rest
  end.

(** The classified error of a non-2xx response whose body does not parse. *)
Definition unparsed_classification (st : Z) (stText : string)
  : KonnectSDKError :=
  let substitute := VObj [("message", VStr stText)] in
  if st =? 401 then
    mkSDKError "AuthenticationError" "Invalid or missing API key"
      (Some 401) (VStr "INVALID_AUTH") VUndefined
  else if st =? 404 then
    mkSDKError "PaymentNotFoundError" "Payment with ID unknown not found"
      (Some 404) (VStr "PAYMENT_NOT_FOUND") VUndefined
  else if st =? 400 then
    mkSDKError "ValidationError"
      (if (stText =? "")%string then "Validation failed" else stText)
      (Some 400) (VStr "VALIDATION_ERROR") substitute
  else
    mkSDKError "KonnectSDKError"
      (if (stText =? "")%string
       then "HTTP " ++ string_of_Z st ++ ": " else stText)
      (Some st) VUndefined substitute.

(** The generic error thrown when the attempts are exhausted. *)
Definition request_failed (msg : string) : KonnectSDKError :=
  mkSDKError "KonnectSDKError"
    (if (msg =? "")%string then "Request failed after retries" else msg)
    None (VStr "REQUEST_FAILED") VUndefined.

(** Sample transport answers. *)
Definition response_500 : Response :=
  mkResponse 500 "Internal Server Error" (ret (VObj [])).

Definition response_404_null : Response :=
  mkResponse 404 "Not Found" (ret VNull).

Definition response_400_unparsed : Response :=
  mkResponse 400 "Bad Request"
    (raise (ThrowError "SyntaxError" "Unexpected token < in JSON")).

Definition response_200_null : Response :=
  mkResponse 200 "OK" (ret VNull).

Definition response_403 : Response :=
  mkResponse 403 "Forbidden" (ret (VObj [("message", VStr "No access")])).

Definition sample_sdk : KonnectSDK :=
  mkKonnectSDK "key" (BASE_URLS sandbox) 30000 3 (VObj []).

Definition error_403 : KonnectSDKError :=
  mkSDKError "KonnectSDKError" "No access" (Some 403) VUndefined
    (VObj [("message", VStr "No access")]).

(** Sample transports: every call answers 500; the first call answers 500
    and the later ones 403; every call answers 200 with the body [null]. *)
Definition always_500 : Z -> exn Response := fun _ => ret response_500.

Definition first_500_then_403 : Z -> exn Response :=
  fun attempt => if attempt =? 0 then ret response_500 else ret response_403.

Definition always_200_null : Z -> exn Response :=
  fun _ => ret response_200_null.

Definition sample_config : KonnectConfig :=
  mkKonnectConfig "key" None (Some 0) (Some 0) None.

(* ================================================================== *)
(** ** Vocabulary for the validation layer and the client *)
(* ================================================================== *)

(** The strings that a regular expression denotes. *)
Inductive lang : regex -> string -> Prop :=
| lang_eps : lang REps ""
| lang_class member c :
    member c = true -> lang (RClass member) (String c "")
| lang_cat r1 r2 s1 s2 :
    lang r1 s1 -> lang r2 s2 -> lang (RCat r1 r2) (s1 ++ s2)
| lang_alt_l r1 r2 s : lang r1 s -> lang (RAlt r1 r2) s
| lang_alt_r r1 r2 s : lang r2 s -> lang (RAlt r1 r2) s
| lang_star_nil r : lang (RStar r) ""
| lang_star_app r s1 s2 :
    lang r s1 -> lang (RStar r) s2 -> lang (RStar r) (s1 ++ s2).

(** Every code unit of [s] passes the test [p]. *)
Fixpoint all_chars (p : ascii -> bool) (s : string) : bool :=
  match s with
  | EmptyString => true
  | String c rest => p c && all_chars p rest
  end.

(** The number of occurrences of the code unit [c] in [s]. *)
Fixpoint count_char (c : ascii) (s : string) : nat :=
  match s with
  | EmptyString => O
  | String c' rest =>
      ((if Ascii.eqb c c' then 1 else 0) + count_char c rest)%nat
  end.

(** A string with nothing but white space, the empty string included. *)
Definition blank (s : string) : bool := all_chars is_white_space s.

(** A non-empty string without white space and without [@]. *)
Definition email_part (s : string) : Prop :=
  s <> "" /\ all_chars not_space_nor_at s = true.

(** An instance of [Error], as opposed to any other raised value. *)
Definition is_Error (failure : thrown) : bool :=
  match failure with
  | ThrowValue _ => false
  | _ => true
  end.

(** A transport that raises instances of [Error] only, from the call itself
    and from the parsing of a body. *)
Definition raises_Errors_only (fetch : Z -> exn Response) : Prop :=
  forall j,
    match fetch j with
    | inl failure => is_Error failure = true
    | inr response =>
        match json response with
        | inl failure => is_Error failure = true
        | inr _ => True
        end
    end.

(** [v.prop] where the read does not raise, [undefined] where it does. *)
Definition prop_or_undefined (v : jsval) (prop : string) : jsval :=
  match get_prop v prop with
  | inr x => x
  | inl _ => VUndefined
  end.

(** The body that the classifier reads its properties from. *)
Definition classifier_data (response : Response) : jsval :=
  match json response with
  | inr parsed => parsed
  | inl _ => VObj [("message", VStr (statusText response))]
  end.

(** A property that is absent or holds a string. *)
Definition string_or_absent (o : option jsval) : Prop :=
  match o with
  | None | Some (VStr _) => True
  | Some _ => False
  end.

(** What the merged request holds under [key]: the property of the request
    when it has one, else the default when [key] is one of the defaults
    copied, else [undefined]. *)
Definition merged_prop (this : KonnectSDK) (req : jsval) (key : string)
  : jsval :=
  match assoc key (own_props req) with
  | Some v => v
  | None =>
      if existsb (String.eqb key) default_keys
      then prop_or_undefined (sdk_defaults this) key
      else VUndefined
  end.

(** The error arm that carries a validation error. *)
Definition validation_outcome (msg : string) : ApiResponse :=
  mkApiResponse VNull
    (Some (mkKonnectError msg (Some 400) (VStr "VALIDATION_ERROR")
             VUndefined)).

(** Sample values. *)
Definition response_200_completed : Response :=
  mkResponse 200 "OK"
    (ret (VObj [("payment", VObj [("status", VStr "completed")])])).

Definition response_200_empty : Response :=
  mkResponse 200 "OK" (ret (VObj [])).

Definition response_200_unparsed : Response :=
  mkResponse 200 "OK"
    (raise (ThrowError "SyntaxError" "Unexpected end of JSON input")).

Definition always_200_empty : Z -> exn Response :=
  fun _ => ret response_200_empty.

Definition always_200_unparsed : Z -> exn Response :=
  fun _ => ret response_200_unparsed.

Definition first_500_then_completed : Z -> exn Response :=
  fun attempt =>
    if attempt =? 0 then ret response_500 else ret response_200_completed.

Definition sample_sdk_with_wallet : KonnectSDK :=
  mkKonnectSDK "key" (BASE_URLS sandbox) 30000 3
    (VObj [("receiverWalletId", VStr "wallet-1")]).

Definition no_string_conversion : string -> bool := fun _ => false.

(* ================================================================== *)
(** ** Properties of the error constructors and of the classifier *)
(* ================================================================== *)

Section Classifier.

Lemma get_prop_raises v prop t :
  get_prop v prop = inl t -> exists m, t = ThrowError "TypeError" m.
Proof.
  destruct v; simpl; try discriminate.
  - intros [= <-]. eexists; reflexivity.
  - intros [= <-]. eexists; reflexivity.
  - destruct (assoc prop props); discriminate.
Qed.

Lemma to_string_cases v :
  (exists s, to_string v = inr s)
  \/ to_string v = inl TypeError_to_primitive.
Proof.
  unfold to_string. destruct (ToString v); [left; eexists | right];
    reflexivity.
Qed.

Lemma Error_message_cases v :
  (exists s, Error_message v = inr s)
  \/ Error_message v = inl TypeError_to_primitive.
Proof.
  destruct v; simpl; try (left; eexists; reflexivity);
    apply to_string_cases.
Qed.

Lemma Error_message_string s : Error_message (VStr s) = inr s.
Proof. reflexivity. Qed.

Lemma new_KonnectSDKError_cases msg st c d :
  (exists m, new_KonnectSDKError msg st c d
             = inr (mkSDKError "KonnectSDKError" m st c d))
  \/ new_KonnectSDKError msg st c d = inl TypeError_to_primitive.
Proof.
  unfold new_KonnectSDKError.
  destruct (Error_message_cases msg) as [[s ->] | ->]; simpl;
    [left; eexists | right]; reflexivity.
Qed.

Lemma new_ValidationError_cases msg d :
  (exists m, new_ValidationError msg d
             = inr (mkSDKError "ValidationError" m (Some 400)
                      (VStr "VALIDATION_ERROR") d))
  \/ new_ValidationError msg d = inl TypeError_to_primitive.
Proof.
  unfold new_ValidationError.
  destruct (new_KonnectSDKError_cases msg (Some 400)
              (VStr "VALIDATION_ERROR") d) as [[m ->] | ->]; simpl;
    [left; eexists | right]; reflexivity.
Qed.

Lemma new_PaymentNotFoundError_cases paymentId :
  (exists id, ToString paymentId = Some id
              /\ new_PaymentNotFoundError paymentId
                 = inr (mkSDKError "PaymentNotFoundError"
                          ("Payment with ID " ++ id ++ " not found")
                          (Some 404) (VStr "PAYMENT_NOT_FOUND") VUndefined))
  \/ new_PaymentNotFoundError paymentId = inl TypeError_to_primitive.
Proof.
  unfold new_PaymentNotFoundError, to_string.
  destruct (ToString paymentId) as [id|]; simpl;
    [left; exists id; split | right]; reflexivity.
Qed.

(** The classifier throws a classified error that carries the status of the
    response, or the [TypeError] of a failed property read or coercion. *)
Lemma handleErrorResponse_cases response :
  (exists e, handleErrorResponse response = ThrowSDK e
             /\ statusCode e = Some (status response))
  \/ (exists m, handleErrorResponse response = ThrowError "TypeError" m).
Proof.
  unfold handleErrorResponse.
  set (data := match json response with
               | inl _ => _
               | inr parsed => parsed
               end).
  destruct (Z.eqb_spec (status response) 401) as [E | _].
  { left. eexists. split; [reflexivity | simpl; now rewrite E]. }
  destruct (Z.eqb_spec (status response) 404) as [E | _].
  { destruct (get_prop data "paymentId") as [t | pid] eqn:G; simpl.
    - right. apply (get_prop_raises _ _ _ G).
    - destruct (new_PaymentNotFoundError_cases (js_or pid (VStr "unknown")))
        as [(id & _ & ->) | ->]; simpl.
      + left. eexists. split; [reflexivity | simpl; now rewrite E].
      + right. eexists; reflexivity. }
  destruct (Z.eqb_spec (status response) 400) as [E | _].
  { destruct (get_prop data "message") as [t | msg] eqn:G; simpl.
    - right. apply (get_prop_raises _ _ _ G).
    - destruct (new_ValidationError_cases
                  (js_or msg (VStr "Validation failed")) data)
        as [[m ->] | ->]; simpl.
      + left. eexists. split; [reflexivity | simpl; now rewrite E].
      + right. eexists; reflexivity. }
  destruct (get_prop data "message") as [t | msg] eqn:G; simpl.
  - right. apply (get_prop_raises _ _ _ G).
  - destruct (get_prop data "code") as [t | c] eqn:G'; simpl.
    + right. apply (get_prop_raises _ _ _ G').
    + match goal with
      | |- context [new_KonnectSDKError ?a ?b ?c ?d] =>
          destruct (new_KonnectSDKError_cases a b c d) as [[m ->] | ->]
      end; simpl.
      * left. eexists. split; reflexivity.
      * right. eexists; reflexivity.
Qed.

(** Status 401 is classified whatever the body. *)
Lemma classify_401 stText body :
  handleErrorResponse (mkResponse 401 stText body)
  = ThrowSDK (mkSDKError "AuthenticationError" "Invalid or missing API key"
                (Some 401) (VStr "INVALID_AUTH") VUndefined).
Proof. reflexivity. Qed.

(** Status 404 with an object body: the identifier is the [paymentId]
    property when it is a non-empty string, [unknown] when it is absent. *)
Lemma classify_404_id stText props id :
  assoc "paymentId" props = Some (VStr id) -> id <> "" ->
  handleErrorResponse (mkResponse 404 stText (ret (VObj props)))
  = ThrowSDK (mkSDKError "PaymentNotFoundError"
                ("Payment with ID " ++ id ++ " not found")
                (Some 404) (VStr "PAYMENT_NOT_FOUND") VUndefined).
Proof.
  intros H Hid. unfold handleErrorResponse; simpl. rewrite H; simpl.
  unfold js_or; simpl.
  destruct (String.eqb_spec id ""); [contradiction | reflexivity].
Qed.

Lemma classify_404_unknown stText props :
  assoc "paymentId" props = None ->
  handleErrorResponse (mkResponse 404 stText (ret (VObj props)))
  = ThrowSDK (mkSDKError "PaymentNotFoundError"
                "Payment with ID unknown not found"
                (Some 404) (VStr "PAYMENT_NOT_FOUND") VUndefined).
Proof.
  intros H. unfold handleErrorResponse; simpl. rewrite H. reflexivity.
Qed.

(** Status 400 with an object body: the message is the [message] property
    when it is a non-empty string, the fallback when it is absent; the
    details are the whole body. *)
Lemma classify_400_message stText props msg :
  assoc "message" props = Some (VStr msg) -> msg <> "" ->
  handleErrorResponse (mkResponse 400 stText (ret (VObj props)))
  = ThrowSDK (mkSDKError "ValidationError" msg (Some 400)
                (VStr "VALIDATION_ERROR") (VObj props)).
Proof.
  intros H Hm. unfold handleErrorResponse; simpl. rewrite H; simpl.
  unfold js_or; simpl.
  destruct (String.eqb_spec msg ""); [contradiction | reflexivity].
Qed.

Lemma classify_400_fallback stText props :
  assoc "message" props = None ->
  handleErrorResponse (mkResponse 400 stText (ret (VObj props)))
  = ThrowSDK (mkSDKError "ValidationError" "Validation failed" (Some 400)
                (VStr "VALIDATION_ERROR") (VObj props)).
Proof.
  intros H. unfold handleErrorResponse; simpl. rewrite H. reflexivity.
Qed.

(** Any other status with an object body: the message is the [message]
    property or the template, the code is the [code] property as it is. *)
Lemma classify_other st stText props :
  st <> 401 -> st <> 404 -> st <> 400 ->
  handleErrorResponse (mkResponse st stText (ret (VObj props)))
  = throw_new
      (new_KonnectSDKError
         (js_or match assoc "message" props with
                | Some m => m
                | None => VUndefined
                end
            (VStr ("HTTP " ++ string_of_Z st ++ ": " ++ stText)))
         (Some st)
         match assoc "code" props with
         | Some c => c
         | None => VUndefined
         end
         (VObj props)).
Proof.
  intros H1 H2 H3. unfold handleErrorResponse; simpl.
  destruct (Z.eqb_spec st 401); [contradiction |].
  destruct (Z.eqb_spec st 404); [contradiction |].
  destruct (Z.eqb_spec st 400); [contradiction |].
  destruct (assoc "message" props), (assoc "code" props); reflexivity.
Qed.

End Classifier.

(* ================================================================== *)
(** ** Properties of traces and of the backoff schedule *)
(* ================================================================== *)

Section Traces.

Lemma schedule_app evs evs' :
  schedule (evs ++ evs') = (schedule evs ++ schedule evs')%list.
Proof. apply filter_app. Qed.

Lemma sleeps_schedule evs : sleeps (schedule evs) = sleeps evs.
Proof.
  induction evs as [| [ms | | u | ms] evs IH]; simpl; auto.
  now rewrite IH.
Qed.

Lemma fetch_count_schedule evs :
  fetch_count (schedule evs) = fetch_count evs.
Proof.
  induction evs as [| [ms | | u | ms] evs IH]; simpl; auto.
Qed.

Lemma backoff_from_step url attempt n :
  backoff_from url attempt (S (S n))
  = EvFetch url :: EvSleep (2 ^ attempt * 1000)
      :: backoff_from url (attempt + 1) (S n).
Proof. reflexivity. Qed.

Lemma fetch_count_backoff url n :
  forall attempt, fetch_count (backoff_from url attempt n) = n.
Proof.
  induction n as [| [| n] IH]; intros attempt; try reflexivity.
  rewrite backoff_from_step. cbn [fetch_count]. now rewrite IH.
Qed.

Lemma sleeps_backoff_from url n :
  forall attempt,
    sleeps (backoff_from url attempt (S n))
    = map (fun i => 2 ^ (attempt + Z.of_nat i) * 1000) (seq 0 n).
Proof.
  induction n as [| n IH]; intros attempt; [reflexivity |].
  rewrite backoff_from_step. cbn [sleeps]. rewrite IH.
  simpl seq. simpl map. rewrite Z.add_0_r. f_equal.
  rewrite <- seq_shift, map_map. apply map_ext; intros i.
  do 2 f_equal. lia.
Qed.

(** From attempt 0 the sleeps are 1000, 2000, 4000, ... *)
Lemma sleeps_backoff url n :
  sleeps (backoff_from url 0 (S n)) = backoff_delays n.
Proof. rewrite sleeps_backoff_from. reflexivity. Qed.

Lemma backoff_delays_3 : backoff_delays 3 = [1000; 2000; 4000].
Proof. reflexivity. Qed.

End Traces.

(* ================================================================== *)
(** ** Properties of one attempt and of the retry decision *)
(* ================================================================== *)

Section Attempt.

Lemma client_error_rethrown e :
  client_error_status e -> is_client_error (ThrowSDK e) = true.
Proof.
  intros (sc & Hsc & Hrange & Hne). simpl. rewrite Hsc.
  destruct (Z.eqb_spec sc 0); [lia |].
  destruct (Z.leb_spec 400 sc); [| lia].
  destruct (Z.ltb_spec sc 500); [| lia].
  destruct (Z.eqb_spec sc 429); [lia | reflexivity].
Qed.

Lemma retryable_not_rethrown failure :
  retryable_failure failure -> is_client_error failure = false.
Proof.
  destruct failure as [e | |]; simpl; auto.
  intros [-> | [-> | (sc & -> & Hsc)]]; auto.
  destruct (Z.ltb_spec sc 500); [lia |].
  now rewrite andb_false_r, andb_false_r.
Qed.

(** The status that the classifier's error carries decides the rethrow. *)
Lemma classified_status_retryable response :
  status response = 429 \/ 500 <= status response ->
  retryable_failure (handleErrorResponse response).
Proof.
  intros H.
  destruct (handleErrorResponse_cases response)
    as [(e & -> & He) | (m & ->)]; simpl; auto.
  rewrite He. destruct H as [-> | H]; eauto.
Qed.

Lemma try_block_schedule url fetched :
  schedule (fst (try_block url fetched)) = [EvFetch url].
Proof. destruct fetched; reflexivity. Qed.

(** A transport outcome that is a retryable failure makes the attempt raise
    a retryable failure. *)
Lemma retryable_outcome_raises url fetched :
  retryable_outcome fetched ->
  exists failure,
    snd (try_block url fetched) = inl failure
    /\ retryable_failure failure.
Proof.
  destruct fetched as [failure | response]; simpl; intros H.
  - exists failure. auto.
  - assert (Hok : ok response = false).
    { unfold ok. destruct H as [-> | H]; [reflexivity |].
      destruct (Z.leb_spec (status response) 299); [lia |].
      apply andb_false_r. }
    rewrite Hok. simpl. eexists. split; [reflexivity |].
    now apply classified_status_retryable.
Qed.

(** A 2xx answer whose body parses is returned by the attempt. *)
Lemma try_block_success url response body :
  ok response = true -> json response = ret body ->
  try_block url (inr response) = ([EvFetch url; EvClearTimeout], ret body).
Proof. intros Hok Hj. simpl. now rewrite Hok, Hj. Qed.

End Attempt.


(* ================================================================== *)
(** ** The retry loop *)
(* ================================================================== *)

Section Loop.

Variable fetch : Z -> exn Response.
Variable url : string.
Variable config : RequestConfig.

(** One iteration whose failure is retried and that is not the last one. *)
Lemma retry_loop_retry remaining attempt lastError failure :
  snd (try_block url (fetch attempt)) = inl failure ->
  is_client_error failure = false ->
  attempt <> retryAttempts config - 1 ->
  retry_loop fetch url config (S remaining) attempt lastError
  = let '(evs', r) :=
      retry_loop fetch url config remaining (attempt + 1) (Some failure) in
    ((fst (try_block url (fetch attempt))
        ++ EvSleep (2 ^ attempt * 1000) :: evs')%list, r).
Proof.
  intros Hf Hc Hlast. cbn [retry_loop].
  destruct (try_block url (fetch attempt)) as [evs out]. simpl in Hf.
  subst out. rewrite Hc.
  destruct (Z.eqb_spec attempt (retryAttempts config - 1)) as [E | _];
    [contradiction |].
  reflexivity.
Qed.

(** After [m] retried failures, a failure that the catch block rethrows
    leaves the loop at once, whatever the number [n] of attempts left. *)
Lemma retry_loop_rethrow m :
  forall n attempt lastError failure,
    attempt + Z.of_nat m + Z.of_nat (S n) = retryAttempts config ->
    (forall j, attempt <= j < attempt + Z.of_nat m -> retried fetch url j) ->
    snd (try_block url (fetch (attempt + Z.of_nat m))) = inl failure ->
    is_client_error failure = true ->
    exists evs,
      retry_loop fetch url config (m + S n) attempt lastError
      = (evs, Rethrown failure)
      /\ schedule evs = backoff_from url attempt (S m).
Proof.
  induction m as [| m IH]; intros n attempt lastError failure HR Hpre Hk Hc.
  - rewrite Z.add_0_r in Hk. cbn [Nat.add retry_loop].
    pose proof (try_block_schedule url (fetch attempt)) as Hs.
    destruct (try_block url (fetch attempt)) as [evs out].
    simpl in Hk, Hs. subst out. rewrite Hc.
    exists evs. split; [reflexivity | exact Hs].
  - assert (H0 : attempt <= attempt < attempt + Z.of_nat (S m)) by lia.
    destruct (Hpre attempt H0) as (f0 & Hf0 & Hc0).
    cbn [Nat.add].
    rewrite (retry_loop_retry _ _ _ _ Hf0 Hc0) by lia.
    destruct (IH n (attempt + 1) (Some f0) failure) as (evs & -> & Hs).
    + lia.
    + intros j Hj. apply Hpre. lia.
    + replace (attempt + 1 + Z.of_nat m) with (attempt + Z.of_nat (S m))
        by lia.
      exact Hk.
    + exact Hc.
    + eexists. split; [reflexivity |].
      rewrite schedule_app, try_block_schedule. cbn [schedule filter app].
      fold (schedule evs). rewrite Hs. reflexivity.
Qed.

(** When every attempt left fails with a retried failure, the loop runs them
    all and falls through with the failure of the last one. *)
Lemma retry_loop_exhaust n :
  forall attempt lastError,
    attempt + Z.of_nat n = retryAttempts config ->
    (forall j, attempt <= j < retryAttempts config -> retried fetch url j) ->
    exists evs last,
      retry_loop fetch url config n attempt lastError
      = (evs, Fallthrough last)
      /\ schedule evs = backoff_from url attempt n
      /\ match n with
         | O => last = lastError
         | S _ => exists failure,
             snd (try_block url (fetch (retryAttempts config - 1)))
             = inl failure
             /\ last = Some failure
         end.
Proof.
  induction n as [| n IH]; intros attempt lastError HR Hall.
  - exists [], lastError. repeat split.
  - assert (H0 : attempt <= attempt < retryAttempts config) by lia.
    destruct (Hall attempt H0) as (f0 & Hf0 & Hc0).
    destruct n as [| n].
    + assert (Hlast : attempt = retryAttempts config - 1) by lia.
      cbn [retry_loop].
      pose proof (try_block_schedule url (fetch attempt)) as Hs.
      destruct (try_block url (fetch attempt)) as [evs out] eqn:Htb.
      simpl in Hf0, Hs. subst out. rewrite Hc0.
      destruct (Z.eqb_spec attempt (retryAttempts config - 1)) as [_ | N];
        [| exfalso; apply N; exact Hlast].
      exists evs, (Some f0). repeat split; [exact Hs |].
      exists f0. rewrite <- Hlast, Htb. auto.
    + rewrite (retry_loop_retry _ _ _ _ Hf0 Hc0) by lia.
      destruct (IH (attempt + 1) (Some f0)) as (evs & last & -> & Hs & Hl).
      * lia.
      * intros j Hj. apply Hall. lia.
      * eexists _, last. split; [reflexivity |]. split; [| exact Hl].
        rewrite schedule_app, try_block_schedule. cbn [schedule filter app].
        fold (schedule evs). rewrite Hs. reflexivity.
Qed.

End Loop.

(** An iteration of the loop starts with a transport call. *)
Lemma retry_loop_first_attempt fetch url config n attempt last :
  exists evs r,
    retry_loop fetch url config (S n) attempt last = (EvFetch url :: evs, r).
Proof.
  cbn [retry_loop].
  assert (H : exists evs0, fst (try_block url (fetch attempt))
                           = EvFetch url :: evs0)
    by (destruct (fetch attempt); eexists; reflexivity).
  destruct H as [evs0 H].
  destruct (try_block url (fetch attempt)) as [evs [failure | body]];
    simpl in H; subst evs; [| eexists _, _; reflexivity].
  destruct (is_client_error failure); [eexists _, _; reflexivity |].
  destruct (attempt =? retryAttempts config - 1);
    [eexists _, _; reflexivity |].
  destruct (retry_loop fetch url config n (attempt + 1) (Some failure))
    as [evs' r]. eexists _, _. reflexivity.
Qed.


(* ================================================================== *)
(** ** The request executor: retry decisions and backoff *)
(* ================================================================== *)

(** A 2xx answer whose body parses is returned by the first attempt: one
    transport call, no sleep, the timer cleared. *)
Lemma first_attempt_success fetch url config response body :
  1 <= retryAttempts config ->
  fetch 0 = inr response -> ok response = true -> json response = ret body ->
  makeRequest fetch url config
  = ([EvSetTimeout (timeout config); EvFetch url; EvClearTimeout], ret body).
Proof.
  intros HR F0 Hok Hj. unfold makeRequest.
  destruct (Z.to_nat (retryAttempts config)) as [| n] eqn:E; [lia |].
  cbn [retry_loop]. rewrite F0, (try_block_success url response body Hok Hj).
  reflexivity.
Qed.

(** C1. When attempt [k] of [makeRequest] raises a classified error whose
    status code lies in 400..499 and is not 429, after [k] attempts that
    raised retryable failures (status 429, status 500 or more, or no status
    code), [makeRequest] throws that very error, however many attempts are
    left: attempt [k] is the last transport call and no sleep follows it.
    The failures of the earlier attempts were retried, each followed by its
    backoff sleep; when [k] is 0 no sleep happens at all.  A retryable
    failure is never rethrown by the catch block. *)
Theorem client_error_propagates_immediately
    (fetch : Z -> exn Response) (url : string) (config : RequestConfig)
    (k : Z) (e : KonnectSDKError) :
  0 <= k < retryAttempts config ->
  (forall j, 0 <= j < k ->
     exists failure, snd (try_block url (fetch j)) = inl failure
                     /\ retryable_failure failure) ->
  snd (try_block url (fetch k)) = inl (ThrowSDK e) ->
  client_error_status e ->
  (exists evs,
     makeRequest fetch url config
     = (EvSetTimeout (timeout config) :: evs, raise (ThrowSDK e))
     /\ schedule evs = backoff_from url 0 (S (Z.to_nat k))
     /\ sleeps evs = backoff_delays (Z.to_nat k)
     /\ fetch_count evs = S (Z.to_nat k))
  /\ (forall failure,
        retryable_failure failure -> is_client_error failure = false).
Proof.
  intros Hk Hpre Hraise Hstatus.
  split; [| exact retryable_not_rethrown].
  destruct (retry_loop_rethrow fetch url config (Z.to_nat k)
              (Z.to_nat (retryAttempts config - k - 1)) 0 None (ThrowSDK e))
    as (evs & Hloop & Hs).
  - lia.
  - intros j Hj. destruct (Hpre j) as (f & Hf & Hr); [lia |].
    exists f. split; [exact Hf | now apply retryable_not_rethrown].
  - replace (0 + Z.of_nat (Z.to_nat k)) with k by lia. exact Hraise.
  - now apply client_error_rethrown.
  - exists evs. unfold makeRequest.
    replace (Z.to_nat (retryAttempts config))
      with (Z.to_nat k + S (Z.to_nat (retryAttempts config - k - 1)))%nat
      by lia.
    rewrite Hloop. split; [reflexivity |]. split; [exact Hs |]. split.
    + rewrite <- sleeps_schedule, Hs. apply sleeps_backoff.
    + rewrite <- fetch_count_schedule, Hs. apply fetch_count_backoff.
Qed.

(** A 500 answer followed by a 403 answer: the 403 error is thrown after the
    one sleep that followed the 500, with a third attempt still allowed. *)
Lemma client_error_propagates_immediately_witness :
  exists evs,
    makeRequest first_500_then_403 "u" (mkConfig 30000 3)
    = (EvSetTimeout 30000 :: evs, raise (ThrowSDK error_403))
    /\ schedule evs = [EvFetch "u"; EvSleep 1000; EvFetch "u"]
    /\ sleeps evs = [1000]
    /\ fetch_count evs = 2%nat.
Proof.
  apply (proj1 (A := exists evs, _)
           (B := forall failure,
               retryable_failure failure -> is_client_error failure = false)).
  apply (client_error_propagates_immediately
           first_500_then_403 "u" (mkConfig 30000 3) 1 error_403).
  - simpl. lia.
  - intros j Hj. assert (j = 0) by lia. subst j.
    eexists. split; [reflexivity |].
    simpl. right. right. exists 500. split; [reflexivity | lia].
  - reflexivity.
  - exists 403. split; [reflexivity | lia].
Defined.

(** With a whole number of attempts allowed: when every attempt fails with a
    retryable failure (the transport call fails, or answers 429 or 500 and
    above), [makeRequest] performs exactly [config.retryAttempts] attempts,
    sleeps [2^attempt * 1000] ms after attempt [attempt] and before the next
    one, that is 1000, 2000, 4000, ... ms in that order, and does not sleep
    after the last attempt. *)
Lemma retryable_failures_back_off
    (fetch : Z -> exn Response) (url : string) (config : RequestConfig) :
  (forall j, 0 <= j < retryAttempts config -> retryable_outcome (fetch j)) ->
  exists evs failure,
    makeRequest fetch url config
    = (EvSetTimeout (timeout config) :: evs, raise failure)
    /\ schedule evs = backoff_from url 0 (Z.to_nat (retryAttempts config))
    /\ fetch_count evs = Z.to_nat (retryAttempts config)
    /\ sleeps evs
       = backoff_delays (Nat.pred (Z.to_nat (retryAttempts config))).
Proof.
  intros Hall.
  destruct (retry_loop_exhaust fetch url config
              (Z.to_nat (retryAttempts config))
              (if 0 <=? retryAttempts config then 0 else retryAttempts config)
              None)
    as (evs & last & Hloop & Hs & _).
  - destruct (Z.leb_spec 0 (retryAttempts config)); lia.
  - intros j Hj.
    destruct (Z.leb_spec 0 (retryAttempts config)); [| lia].
    destruct (retryable_outcome_raises url (fetch j)) as (f & Hf & Hr).
    + apply Hall. lia.
    + exists f. split; [exact Hf | now apply retryable_not_rethrown].
  - assert (Hloop0 : retry_loop fetch url config
                       (Z.to_nat (retryAttempts config)) 0 None
                     = (evs, Fallthrough last)
                     /\ schedule evs
                        = backoff_from url 0
                            (Z.to_nat (retryAttempts config))).
    { destruct (Z.leb_spec 0 (retryAttempts config)) as [Hpos | Hneg].
      - split; assumption.
      - replace (Z.to_nat (retryAttempts config)) with O in * by lia.
        simpl in Hloop. injection Hloop as <- <-. split; reflexivity. }
    clear Hloop Hs. destruct Hloop0 as [Hloop Hs].
    unfold makeRequest. rewrite Hloop.
    assert (Hs' : schedule (evs ++ [EvClearTimeout]) = schedule evs).
    { rewrite schedule_app. simpl. apply app_nil_r. }
    eexists _, _. split; [reflexivity |].
    rewrite <- sleeps_schedule, <- fetch_count_schedule, Hs', Hs.
    split; [reflexivity |]. split; [apply fetch_count_backoff |].
    destruct (Z.to_nat (retryAttempts config)) as [| n];
      [reflexivity | apply sleeps_backoff].
Qed.

(* ================================================================== *)
(** ** The request executor: exhaustion *)
(* ================================================================== *)

(** A 500 answer makes the attempt raise the classifier's failure, after the
    timer was cleared, and the catch block does not rethrow it. *)
Lemma try_block_500 url response :
  status response = 500 ->
  try_block url (inr response)
  = ([EvFetch url; EvClearTimeout], raise (handleErrorResponse response))
  /\ is_client_error (handleErrorResponse response) = false.
Proof.
  intros H. split.
  - unfold try_block, ok. rewrite H. reflexivity.
  - apply retryable_not_rethrown, classified_status_retryable. lia.
Qed.

(** The error built from the message of the last failure. *)
Lemma request_failed_of_message msg :
  throw_new
    (new_KonnectSDKError
       (js_or (VStr msg) (VStr "Request failed after retries"))
       None (VStr "REQUEST_FAILED") VUndefined)
  = ThrowSDK (request_failed msg).
Proof.
  unfold js_or, request_failed. simpl.
  destruct (msg =? "")%string; reflexivity.
Qed.

(** C3, as the claim states it, fails: with three attempts that all answer
    500, the error thrown is not the classifier's error of the last answer;
    it has lost the status code 500 and has the code REQUEST_FAILED. *)
Lemma exhausted_error_is_not_the_classified_one :
  exists e thrown_e,
    handleErrorResponse response_500 = ThrowSDK e
    /\ snd (makeRequest always_500 "u" (mkConfig 30000 3))
       = raise (ThrowSDK thrown_e)
    /\ thrown_e <> e
    /\ statusCode e = Some 500 /\ statusCode thrown_e = None
    /\ code e = VUndefined /\ code thrown_e = VStr "REQUEST_FAILED".
Proof.
  do 2 eexists. split; [reflexivity |]. split; [reflexivity |].
  repeat split. discriminate.
Qed.

(** C3, amended.  With [retryAttempts = 3] and an answer of status 500 to
    each of the three attempts, [makeRequest] sleeps exactly twice, 1000 ms
    then 2000 ms, and then throws a new generic error: its message is the
    message of the classified error of the last answer (the fixed fallback
    when that message is empty), its code is REQUEST_FAILED, and it has no
    status code and no details. *)
Theorem three_500_answers_exhaust_the_attempts
    (fetch : Z -> exn Response) (url : string) (t : Z)
    (r0 r1 r2 : Response) (e : KonnectSDKError) :
  fetch 0 = inr r0 -> fetch 1 = inr r1 -> fetch 2 = inr r2 ->
  status r0 = 500 -> status r1 = 500 -> status r2 = 500 ->
  handleErrorResponse r2 = ThrowSDK e ->
  makeRequest fetch url (mkConfig t 3)
  = ([EvSetTimeout t;
      EvFetch url; EvClearTimeout; EvSleep 1000;
      EvFetch url; EvClearTimeout; EvSleep 2000;
      EvFetch url; EvClearTimeout;
      EvClearTimeout],
     raise (ThrowSDK (request_failed (message e)))).
Proof.
  intros F0 F1 F2 S0 S1 S2 He.
  destruct (try_block_500 url r0 S0) as [T0 C0].
  destruct (try_block_500 url r1 S1) as [T1 C1].
  destruct (try_block_500 url r2 S2) as [T2 C2].
  unfold makeRequest.
  change (Z.to_nat (retryAttempts (mkConfig t 3))) with 3%nat.
  cbn [retry_loop]. rewrite F0, T0. cbn [raise]. rewrite C0.
  cbn [retryAttempts Z.eqb Z.sub Z.add Z.opp Z.pos_sub Pos.pred_double
       Pos.add Pos.succ Z.succ_double Z.pred_double Z.double].
  rewrite F1, T1. cbn [raise]. rewrite C1.
  cbn [Z.eqb Pos.eqb Z.add Pos.add Pos.succ].
  rewrite F2, T2. cbn [raise]. rewrite C2.
  cbn [Z.eqb Pos.eqb]. rewrite He.
  cbn [lastError_message]. rewrite request_failed_of_message.
  reflexivity.
Qed.

Lemma three_500_answers_exhaust_the_attempts_witness :
  makeRequest always_500 "u" (mkConfig 30000 3)
  = ([EvSetTimeout 30000;
      EvFetch "u"; EvClearTimeout; EvSleep 1000;
      EvFetch "u"; EvClearTimeout; EvSleep 2000;
      EvFetch "u"; EvClearTimeout;
      EvClearTimeout],
     raise (ThrowSDK
              (mkSDKError "KonnectSDKError" "HTTP 500: Internal Server Error"
                 None (VStr "REQUEST_FAILED") VUndefined))).
Proof.
  apply (three_500_answers_exhaust_the_attempts always_500 "u" 30000
           response_500 response_500 response_500
           (mkSDKError "KonnectSDKError" "HTTP 500: Internal Server Error"
              (Some 500) VUndefined (VObj [])));
    reflexivity.
Defined.

(** C7. With [retryAttempts = 0] the loop body never runs: no transport call
    is issued, and the call fails at once with a generic error whose code is
    REQUEST_FAILED, whose message is the fixed fallback and which has no
    status code. *)
Theorem zero_attempts_issue_no_call
    (fetch : Z -> exn Response) (url : string) (t : Z) :
  makeRequest fetch url (mkConfig t 0)
  = ([EvSetTimeout t; EvClearTimeout],
     raise (ThrowSDK
              (mkSDKError "KonnectSDKError" "Request failed after retries"
                 None (VStr "REQUEST_FAILED") VUndefined))).
Proof. reflexivity. Qed.

(* ================================================================== *)
(** ** The deadline timer *)
(* ================================================================== *)

Lemma timers_armed_app evs evs' :
  timers_armed (evs ++ evs') = (timers_armed evs + timers_armed evs')%nat.
Proof.
  induction evs as [| [ms | | u | ms] evs IH]; simpl; auto.
Qed.

Lemma pending_after_app pending evs evs' :
  pending_after pending (evs ++ evs')
  = pending_after (pending_after pending evs) evs'.
Proof.
  revert pending.
  induction evs as [| [ms | | u | ms] evs IH]; intros pending; simpl; auto.
Qed.

Lemma try_block_arms_no_timer url fetched :
  timers_armed (fst (try_block url fetched)) = O.
Proof. destruct fetched; reflexivity. Qed.

(** The loop arms no timer. *)
Lemma retry_loop_arms_no_timer fetch url config n :
  forall attempt last,
    timers_armed (fst (retry_loop fetch url config n attempt last)) = O.
Proof.
  induction n as [| n IH]; intros attempt last; [reflexivity |].
  cbn [retry_loop].
  pose proof (try_block_arms_no_timer url (fetch attempt)) as H0.
  destruct (try_block url (fetch attempt)) as [evs [failure | body]];
    simpl in H0; [| exact H0].
  destruct (is_client_error failure); [exact H0 |].
  destruct (attempt =? retryAttempts config - 1); [exact H0 |].
  specialize (IH (attempt + 1) (Some failure)).
  destruct (retry_loop fetch url config n (attempt + 1) (Some failure))
    as [evs' r]. simpl in IH. simpl fst.
  rewrite timers_armed_app, H0. simpl. exact IH.
Qed.

(** Exactly one deadline timer is armed per call. *)
Lemma exactly_one_timer_armed fetch url config :
  timers_armed (fst (makeRequest fetch url config)) = 1%nat.
Proof.
  unfold makeRequest.
  pose proof (retry_loop_arms_no_timer fetch url config
                (Z.to_nat (retryAttempts config)) 0 None) as H.
  destruct (retry_loop fetch url config (Z.to_nat (retryAttempts config))
              0 None) as [evs [body | failure | last]];
    simpl in H; simpl; rewrite ?timers_armed_app, H; reflexivity.
Qed.

(** When the transport fails with nothing but unclassified failures, no timer
    is pending when the call ends, whichever way it ends. *)
Lemma no_timer_pending_at_exit fetch url config :
  (forall j failure, fetch j = inl failure ->
                     is_client_error failure = false) ->
  pending_after false (fst (makeRequest fetch url config)) = false.
Proof.
  intros Hfetch.
  assert (Hloop : forall n attempt last pending,
             match snd (retry_loop fetch url config n attempt last) with
             | Fallthrough _ => True
             | _ => pending_after pending
                      (fst (retry_loop fetch url config n attempt last))
                    = false
             end).
  { induction n as [| n IH]; intros attempt last pending; [exact I |].
    cbn [retry_loop].
    destruct (fetch attempt) as [failure | response] eqn:F;
      cbn [try_block raise].
    - rewrite (Hfetch _ _ F).
      destruct (attempt =? retryAttempts config - 1); [exact I |].
      specialize (IH (attempt + 1) (Some failure) pending).
      destruct (retry_loop fetch url config n (attempt + 1) (Some failure))
        as [evs' r]. simpl in *. exact IH.
    - destruct (if negb (ok response)
                then raise (handleErrorResponse response)
                else json response) as [failure | body];
        [| reflexivity].
      destruct (is_client_error failure); [reflexivity |].
      destruct (attempt =? retryAttempts config - 1); [exact I |].
      specialize (IH (attempt + 1) (Some failure) false).
      destruct (retry_loop fetch url config n (attempt + 1) (Some failure))
        as [evs' r]. simpl in *. exact IH. }
  unfold makeRequest.
  specialize (Hloop (Z.to_nat (retryAttempts config)) 0 None true).
  destruct (retry_loop fetch url config (Z.to_nat (retryAttempts config))
              0 None) as [evs [body | failure | last]]; simpl in *;
    try exact Hloop.
  rewrite pending_after_app. reflexivity.
Qed.

(** Once a transport call has been answered the timer is cleared: when the
    first answer has status 500 and a second attempt is allowed, the second
    transport call follows a [clearTimeout] and a sleep. *)
Lemma second_attempt_follows_clearTimeout fetch url config response :
  fetch 0 = inr response -> status response = 500 ->
  2 <= retryAttempts config ->
  exists evs out,
    makeRequest fetch url config
    = (EvSetTimeout (timeout config)
         :: EvFetch url :: EvClearTimeout :: EvSleep 1000
         :: EvFetch url :: evs, out).
Proof.
  intros F0 S0 HR.
  destruct (try_block_500 url response S0) as [T0 C0].
  unfold makeRequest.
  destruct (Z.to_nat (retryAttempts config)) as [| [| n]] eqn:E; try lia.
  rewrite (retry_loop_retry fetch url config (S n) 0 None
             (handleErrorResponse response)).
  - destruct (retry_loop_first_attempt fetch url config n (0 + 1)
                (Some (handleErrorResponse response))) as (evs & r & ->).
    rewrite F0, T0. destruct r; eexists _, _; reflexivity.
  - rewrite F0, T0. reflexivity.
  - exact C0.
  - lia.
Qed.

(** C9 at a failing input.  With two attempts allowed and an answer of status
    500 to each, one timer is armed and none is pending when the call ends,
    but the timer is cleared as soon as the first answer arrives: the second
    transport call is issued with no deadline pending. *)
Theorem deadline_is_cleared_before_the_second_attempt (url : string) (t : Z) :
  let evs := fst (makeRequest always_500 url (mkConfig t 2)) in
  evs = [EvSetTimeout t;
         EvFetch url; EvClearTimeout; EvSleep 1000;
         EvFetch url; EvClearTimeout;
         EvClearTimeout]
  /\ timers_armed evs = 1%nat
  /\ pending_after false evs = false
  /\ uncovered_fetches false evs = 1%nat.
Proof. repeat split. Qed.

(* ================================================================== *)
(** ** The classifier on bodies that are no objects *)
(* ================================================================== *)

(** A body that parses to [null] makes every property read raise, so only
    status 401, which reads no property, is classified. *)
Lemma null_body_raises_TypeError st stText :
  st <> 401 ->
  exists m,
    handleErrorResponse (mkResponse st stText (ret VNull))
    = ThrowError "TypeError" m.
Proof.
  intros H. unfold handleErrorResponse. simpl.
  destruct (Z.eqb_spec st 401); [contradiction |].
  destruct (st =? 404); [eexists; reflexivity |].
  destruct (st =? 400); eexists; reflexivity.
Qed.

(** C4 at a failing input.  A 404 answer whose body is the JSON value [null]
    is not classified as a not-found error: reading [paymentId] from [null]
    raises a [TypeError], which carries neither status nor code, and which
    the executor retries instead of rethrowing. *)
Theorem null_body_404_is_not_classified :
  handleErrorResponse response_404_null
  = ThrowError "TypeError"
      "Cannot read properties of null (reading 'paymentId')"
  /\ (forall e, handleErrorResponse response_404_null <> ThrowSDK e)
  /\ is_client_error (handleErrorResponse response_404_null) = false
  /\ makeRequest (fun _ => ret response_404_null) "u" (mkConfig 30000 2)
     = ([EvSetTimeout 30000;
         EvFetch "u"; EvClearTimeout; EvSleep 1000;
         EvFetch "u"; EvClearTimeout;
         EvClearTimeout],
        raise (ThrowSDK
                 (request_failed
                    "Cannot read properties of null (reading 'paymentId')"))).
Proof.
  split; [reflexivity |]. split; [discriminate |].
  split; reflexivity.
Qed.

(** C8, as the claim states it, fails: for a 400 answer whose body does not
    parse, the message is the status text, not the fallback, and the body
    used for the lookups and kept as details is not empty. *)
Lemma unparsed_400_takes_the_status_text :
  exists e,
    handleErrorResponse response_400_unparsed = ThrowSDK e
    /\ message e = "Bad Request"
    /\ message e <> "Validation failed"
    /\ details e = VObj [("message", VStr "Bad Request")]
    /\ details e <> VObj [].
Proof.
  eexists. split; [reflexivity |]. simpl. repeat split; discriminate.
Qed.

(** C8, amended.  For every response whose body does not parse, the
    classifier raises no parse failure: it classifies with the substitute
    body [{message: statusText}].  Status 401 yields the authentication
    error; 404 the not-found error for the identifier [unknown]; 400 a
    validation error whose message is the status text, or the fallback
    "Validation failed" when the status text is empty; any other status a
    generic error with that status, no code, and as message the status text,
    or the templated message when the status text is empty.  For 400 and the
    other statuses the details are the substitute body. *)
Theorem unparsed_body_is_classified
    (st : Z) (stText : string) (failure : thrown) :
  handleErrorResponse (mkResponse st stText (raise failure))
  = ThrowSDK (unparsed_classification st stText).
Proof.
  unfold handleErrorResponse, unparsed_classification. simpl.
  destruct (st =? 401); [reflexivity |].
  destruct (st =? 404); [reflexivity |].
  unfold js_or. simpl.
  destruct (st =? 400); destruct (String.eqb_spec stText "") as [-> | _];
    reflexivity.
Qed.

(* ================================================================== *)
(** ** The result envelope *)
(* ================================================================== *)

(** C5, as the claim states it, fails.  A raised object that is no [Error]
    and carries the message [boom] is reported with the message
    "Unknown error", not with its own message; and an [Error] that carries
    the empty message is reported with the empty message, not with
    "Unknown error". *)
Lemma message_of_a_failure_that_is_no_Error_is_dropped :
  own_message (ThrowValue (VObj [("message", VStr "boom")])) = VStr "boom"
  /\ wrapResponse ([], raise (ThrowValue (VObj [("message", VStr "boom")])))
     = ([], ret (mkApiResponse VNull
                   (Some (mkKonnectError "Unknown error" None
                            (VStr "UNKNOWN_ERROR") VUndefined))))
  /\ "Unknown error" <> "boom"
  /\ own_message (ThrowError "Error" "") = VStr ""
  /\ wrapResponse ([], raise (ThrowError "Error" ""))
     = ([], ret (mkApiResponse VNull
                   (Some (mkKonnectError "" None
                            (VStr "UNKNOWN_ERROR") VUndefined)))).
Proof. repeat split. discriminate. Qed.

(** C5, amended.  When the wrapped operation raises, [wrapResponse] returns
    the error arm.  A classified error passes with its message, status code,
    code and details unchanged.  Any other failure becomes an error with the
    code UNKNOWN_ERROR, no status code and no details, whose message is the
    message of the failure when the failure is an instance of [Error], empty
    or not, and "Unknown error" when it is not, whatever [message] property
    the raised value has. *)
Theorem wrapResponse_error_arm_by_instance
    (evs : list event) (failure : thrown) :
  wrapResponse (evs, raise failure)
  = (evs,
     ret (mkApiResponse VNull
            (Some match failure with
                  | ThrowSDK e =>
                      mkKonnectError (message e) (statusCode e)
                        (code e) (details e)
                  | ThrowError _ m =>
                      mkKonnectError m None (VStr "UNKNOWN_ERROR") VUndefined
                  | ThrowValue _ =>
                      mkKonnectError "Unknown error" None
                        (VStr "UNKNOWN_ERROR") VUndefined
                  end))).
Proof. destruct failure; reflexivity. Qed.

(** C6, as the claim states it, fails: when the gateway answers 200 with the
    body [null], the wrapped request returns an outcome whose two fields are
    both [null]. *)
Lemma null_result_populates_neither_arm :
  snd (wrapResponse (request sample_sdk always_200_null "/payments/42"))
  = ret (mkApiResponse VNull None)
  /\ ~ exactly_one_arm (mkApiResponse VNull None).
Proof.
  split; [reflexivity |].
  intros [[H _] | [_ H]]; apply H; reflexivity.
Qed.

(** C6, amended.  [wrapResponse] never raises and performs the effects of the
    operation only.  When the operation returns a value, the outcome holds
    that value as data (which may itself be [null]) and a [null] error; when
    the operation raises, the outcome holds [null] data and a populated
    error.  The two fields are never both populated, and the error is
    populated exactly when the operation raised. *)
Theorem wrapResponse_never_raises (fn : io jsval) :
  exists r,
    wrapResponse fn = (fst fn, ret r)
    /\ match snd fn with
       | inr v => data r = v /\ error r = None
       | inl _ => data r = VNull /\ error r <> None
       end
    /\ ~ (data r <> VNull /\ error r <> None).
Proof.
  destruct fn as [evs [failure | v]].
  - destruct failure; eexists; (split; [reflexivity |]); simpl;
      (split; [split; [reflexivity | discriminate] |]);
      intros [H _]; apply H; reflexivity.
  - eexists. split; [reflexivity |]. simpl. split; [split; reflexivity |].
    intros [_ H]; apply H; reflexivity.
Qed.

(* ================================================================== *)
(** ** The client: defaults and the first attempt *)
(* ================================================================== *)

Lemma validateConfig_accepts config :
  validateConfig config = ret tt ->
  (num_truthy (cfg_timeout config) && num_lt0 (cfg_timeout config)) = false
  /\ (num_truthy (cfg_retryAttempts config)
      && num_lt0 (cfg_retryAttempts config)) = false.
Proof.
  unfold validateConfig.
  destruct ((cfg_apiKey config =? "")%string
            || (trim (cfg_apiKey config) =? "")%string); [discriminate |].
  destruct (num_truthy (cfg_timeout config)
            && num_lt0 (cfg_timeout config)); [discriminate |].
  destruct (num_truthy (cfg_retryAttempts config)
            && num_lt0 (cfg_retryAttempts config)); [discriminate |].
  auto.
Qed.

Lemma num_or_falsy x d : num_truthy x = false -> num_or x d = d.
Proof.
  destruct x as [n |]; simpl; [| reflexivity].
  now intros ->.
Qed.

Lemma num_or_positive x d :
  1 <= d -> (num_truthy x && num_lt0 x) = false -> 1 <= num_or x d.
Proof.
  intros Hd. destruct x as [n |]; simpl; [| auto].
  destruct (Z.eqb_spec n 0); simpl; [auto |].
  destruct (Z.ltb_spec n 0); [discriminate | lia].
Qed.

(** With at least one attempt allowed, the transport is called right after
    the timer is armed. *)
Lemma makeRequest_first_attempt fetch url config :
  1 <= retryAttempts config ->
  exists evs out,
    makeRequest fetch url config
    = (EvSetTimeout (timeout config) :: EvFetch url :: evs, out).
Proof.
  intros H. unfold makeRequest.
  destruct (Z.to_nat (retryAttempts config)) as [| n] eqn:E; [lia |].
  destruct (retry_loop_first_attempt fetch url config n 0 None)
    as (evs & r & ->).
  destruct r; eexists _, _; reflexivity.
Qed.

(** C10. For every configuration that the constructor accepts, an absent or
    zero [retryAttempts] becomes 3 and an absent or zero [timeout] becomes
    30000, so the client allows at least one attempt: every request of the
    client arms the timer and calls the transport, and so does every
    [getPaymentDetails] whose argument passes validation. *)
Theorem sdk_performs_at_least_one_attempt
    (config : KonnectConfig) (this : KonnectSDK) :
  new_KonnectSDK config = ret this ->
  (cfg_retryAttempts config = None \/ cfg_retryAttempts config = Some 0 ->
   sdk_retryAttempts this = 3)
  /\ (cfg_timeout config = None \/ cfg_timeout config = Some 0 ->
      sdk_timeout this = 30000)
  /\ 1 <= sdk_retryAttempts this
  /\ (forall fetch endpoint,
        exists evs out,
          request this fetch endpoint
          = (EvSetTimeout (sdk_timeout this)
               :: EvFetch (sdk_baseUrl this ++ endpoint) :: evs, out))
  /\ (forall fetch paymentId,
        validatePaymentId paymentId = ret tt ->
        (1 <= fetch_count (fst (getPaymentDetails this fetch paymentId)))%nat).
Proof.
  unfold new_KonnectSDK.
  destruct (validateConfig config) as [t | []] eqn:V; [discriminate |].
  destruct (validateConfig_accepts config V) as [_ Hra].
  simpl. intros [= <-]. simpl.
  assert (Hpos : 1 <= num_or (cfg_retryAttempts config) 3)
    by (apply num_or_positive; [lia | exact Hra]).
  split; [intros [-> | ->]; reflexivity |].
  split; [intros [-> | ->]; reflexivity |].
  split; [exact Hpos |].
  split.
  - intros fetch endpoint. unfold request. cbn [sdk_baseUrl sdk_timeout
      sdk_retryAttempts].
    apply (makeRequest_first_attempt fetch _
             (mkConfig _ (num_or (cfg_retryAttempts config) 3))).
    exact Hpos.
  - intros fetch paymentId Hid. unfold getPaymentDetails. rewrite Hid.
    unfold request. cbn [sdk_baseUrl sdk_timeout sdk_retryAttempts].
    destruct (makeRequest_first_attempt fetch
                (BASE_URLS match cfg_environment config with
                           | Some env => env
                           | None => sandbox
                           end ++ "/payments/" ++ paymentId)
                (mkConfig (num_or (cfg_timeout config) 30000)
                   (num_or (cfg_retryAttempts config) 3)) Hpos)
      as (evs & out & ->).
    simpl. lia.
Qed.

(** A configuration with [timeout: 0] and [retryAttempts: 0]. *)
Lemma sdk_performs_at_least_one_attempt_witness :
  new_KonnectSDK sample_config = ret sample_sdk
  /\ sdk_retryAttempts sample_sdk = 3
  /\ sdk_timeout sample_sdk = 30000
  /\ (forall fetch endpoint,
        exists evs out,
          request sample_sdk fetch endpoint
          = (EvSetTimeout 30000
               :: EvFetch (BASE_URLS sandbox ++ endpoint) :: evs, out)).
Proof.
  split; [reflexivity |].
  destruct (sdk_performs_at_least_one_attempt sample_config sample_sdk)
    as (Hra & Ht & _ & Hreq & _); [reflexivity |].
  split; [apply Hra; right; reflexivity |].
  split; [apply Ht; right; reflexivity |].
  exact Hreq.
Defined.

(* ================================================================== *)
(** ** Further properties of the request executor *)
(* ================================================================== *)

Lemma rethrown_is_client_error failure :
  is_client_error failure = true ->
  exists e, failure = ThrowSDK e /\ client_error_status e.
Proof.
  destruct failure as [e | |]; simpl; try discriminate.
  destruct (statusCode e) as [sc |] eqn:Hsc; [| discriminate].
  intros H. apply andb_prop in H. destruct H as [_ H].
  apply andb_prop in H. destruct H as [H H429].
  apply andb_prop in H. destruct H as [Hlo Hhi].
  exists e. split; [reflexivity |]. exists sc. split; [exact Hsc |].
  apply Z.leb_le in Hlo. apply Z.ltb_lt in Hhi.
  apply negb_true_iff, Z.eqb_neq in H429. lia.
Qed.

(** After [m] retried failures the loop stands at attempt [attempt + m], with
    the [m] transport calls and their sleeps behind it. *)
Lemma retry_loop_after_retries fetch url config m :
  forall n attempt lastError,
    attempt + Z.of_nat m + Z.of_nat (S n) = retryAttempts config ->
    (forall j, attempt <= j < attempt + Z.of_nat m -> retried fetch url j) ->
    exists evs last,
      retry_loop fetch url config (m + S n) attempt lastError
      = (let '(evs', r) :=
           retry_loop fetch url config (S n) (attempt + Z.of_nat m) last in
         ((evs ++ evs')%list, r))
      /\ (schedule evs ++ [EvFetch url])%list
         = backoff_from url attempt (S m).
Proof.
  induction m as [| m IH]; intros n attempt lastError HR Hpre.
  - exists [], lastError. split; [| reflexivity].
    cbn [Nat.add Z.of_nat]. rewrite Z.add_0_r.
    destruct (retry_loop fetch url config (S n) attempt lastError).
    reflexivity.
  - assert (H0 : attempt <= attempt < attempt + Z.of_nat (S m)) by lia.
    destruct (Hpre attempt H0) as (f0 & Hf0 & Hc0).
    cbn [Nat.add].
    rewrite (retry_loop_retry _ _ _ _ _ _ _ Hf0 Hc0) by lia.
    destruct (IH n (attempt + 1) (Some f0)) as (evs & last & -> & Hs).
    + lia.
    + intros j Hj. apply Hpre. lia.
    + replace (attempt + 1 + Z.of_nat m) with (attempt + Z.of_nat (S m))
        by lia.
      exists (fst (try_block url (fetch attempt))
                ++ EvSleep (2 ^ attempt * 1000) :: evs)%list, last.
      split.
      * destruct (retry_loop fetch url config (S n)
                    (attempt + Z.of_nat (S m)) last) as [evs' r].
        now rewrite <- app_assoc.
      * rewrite schedule_app, try_block_schedule.
        cbn [schedule filter app]. fold (schedule evs).
        change (EvFetch url :: EvSleep (2 ^ attempt * 1000)
                  :: (schedule evs ++ [EvFetch url])%list
                = backoff_from url attempt (S (S m))).
        rewrite Hs. reflexivity.
Qed.

(** X1. The parsed body of a 2xx answer is returned even when it comes after
    [k] attempts that failed with retryable failures: the call returns that
    body after [k + 1] transport calls and the [k] backoff sleeps between
    them. *)
Theorem success_after_retries
    (fetch : Z -> exn Response) (url : string) (config : RequestConfig)
    (k : Z) (response : Response) (body : jsval) :
  0 <= k < retryAttempts config ->
  (forall j, 0 <= j < k -> retryable_outcome (fetch j)) ->
  fetch k = inr response -> ok response = true -> json response = ret body ->
  exists evs,
    makeRequest fetch url config
    = (EvSetTimeout (timeout config) :: evs, ret body)
    /\ schedule evs = backoff_from url 0 (S (Z.to_nat k))
    /\ sleeps evs = backoff_delays (Z.to_nat k)
    /\ pending_after true evs = false.
Proof.
  intros Hk Hpre Hfetch Hok Hjson.
  destruct (retry_loop_after_retries fetch url config (Z.to_nat k)
              (Z.to_nat (retryAttempts config - k - 1)) 0 None)
    as (evs & last & Hloop & Hs).
  - lia.
  - intros j Hj.
    destruct (retryable_outcome_raises url (fetch j)) as (f & Hf & Hr).
    + apply Hpre. lia.
    + exists f. split; [exact Hf | now apply retryable_not_rethrown].
  - replace (0 + Z.of_nat (Z.to_nat k)) with k in Hloop by lia.
    cbn [retry_loop] in Hloop.
    rewrite Hfetch, (try_block_success url response body Hok Hjson) in Hloop.
    unfold ret in Hloop.
    exists (evs ++ [EvFetch url; EvClearTimeout])%list.
    unfold makeRequest.
    replace (Z.to_nat (retryAttempts config))
      with (Z.to_nat k + S (Z.to_nat (retryAttempts config - k - 1)))%nat
      by lia.
    rewrite Hloop.
    assert (Hsched : schedule (evs ++ [EvFetch url; EvClearTimeout])
                     = backoff_from url 0 (S (Z.to_nat k))).
    { rewrite schedule_app. exact Hs. }
    split; [reflexivity |]. split; [exact Hsched |]. split.
    + rewrite <- sleeps_schedule, Hsched. apply sleeps_backoff.
    + rewrite pending_after_app. reflexivity.
Qed.

Lemma success_after_retries_witness :
  exists evs,
    makeRequest first_500_then_completed "u" (mkConfig 30000 3)
    = (EvSetTimeout 30000 :: evs,
       ret (VObj [("payment", VObj [("status", VStr "completed")])]))
    /\ schedule evs = [EvFetch "u"; EvSleep 1000; EvFetch "u"]
    /\ sleeps evs = [1000]
    /\ pending_after true evs = false.
Proof.
  apply (success_after_retries first_500_then_completed "u"
           (mkConfig 30000 3) 1 response_200_completed).
  - simpl. lia.
  - intros j Hj. assert (j = 0) by lia. subst j. simpl. right. lia.
  - reflexivity.
  - reflexivity.
  - reflexivity.
Defined.

(** The schedule of the loop entered with the attempts that the loop test
    still allows is the backoff schedule of some of them, of at least one
    when one is allowed. *)
Lemma retry_loop_schedule fetch url config n :
  forall attempt last,
    attempt + Z.of_nat n = retryAttempts config ->
    exists k,
      (k <= n)%nat /\ (1 <= n -> 1 <= k)%nat
      /\ schedule (fst (retry_loop fetch url config n attempt last))
         = backoff_from url attempt k.
Proof.
  induction n as [| n IH]; intros attempt last HR.
  - exists O. split; [lia | split; [lia | reflexivity]].
  - cbn [retry_loop].
    pose proof (try_block_schedule url (fetch attempt)) as Hs.
    destruct (try_block url (fetch attempt)) as [evs [failure | body]];
      simpl in Hs;
      [| exists 1%nat; split; [lia | split; [lia | exact Hs]]].
    destruct (is_client_error failure);
      [exists 1%nat; split; [lia | split; [lia | exact Hs]] |].
    destruct (Z.eqb_spec attempt (retryAttempts config - 1)) as [E | N];
      [exists 1%nat; split; [lia | split; [lia | exact Hs]] |].
    destruct (IH (attempt + 1) (Some failure)) as (k & Hk & Hk1 & Hsk);
      [lia |].
    destruct (retry_loop fetch url config n (attempt + 1) (Some failure))
      as [evs' r]. simpl in Hsk. simpl fst.
    assert (Hn : (1 <= n)%nat) by lia.
    destruct k as [| k]; [specialize (Hk1 Hn); lia |].
    exists (S (S k)). split; [lia |]. split; [lia |].
    rewrite schedule_app, Hs. cbn [sleep schedule filter app].
    fold (schedule evs'). rewrite Hsk. reflexivity.
Qed.

(** With a whole number of attempts allowed and whatever the transport
    does, the transport calls and sleeps of a call form the backoff schedule
    of some number [k] of attempts, at most [retryAttempts]. *)
Lemma makeRequest_schedule_is_a_backoff_schedule
    (fetch : Z -> exn Response) (url : string) (config : RequestConfig) :
  exists k,
    (k <= Z.to_nat (retryAttempts config))%nat
    /\ schedule (fst (makeRequest fetch url config)) = backoff_from url 0 k
    /\ fetch_count (fst (makeRequest fetch url config)) = k
    /\ sleeps (fst (makeRequest fetch url config))
       = backoff_delays (Nat.pred k).
Proof.
  assert (H : exists k,
             (k <= Z.to_nat (retryAttempts config))%nat
             /\ schedule (fst (makeRequest fetch url config))
                = backoff_from url 0 k).
  { unfold makeRequest.
    destruct (Z.leb_spec 0 (retryAttempts config)) as [Hpos | Hneg].
    - destruct (retry_loop_schedule fetch url config
                  (Z.to_nat (retryAttempts config)) 0 None)
        as (k & Hk & _ & Hs); [lia |].
      exists k. split; [exact Hk |].
      destruct (retry_loop fetch url config
                  (Z.to_nat (retryAttempts config)) 0 None)
        as [evs [body | failure | last]]; simpl in Hs; simpl; auto.
      rewrite schedule_app, Hs. simpl. apply app_nil_r.
    - exists O. split; [lia |].
      replace (Z.to_nat (retryAttempts config)) with O by lia.
      reflexivity. }
  destruct H as (k & Hk & Hs). exists k.
  split; [exact Hk |]. split; [exact Hs |]. split.
  - rewrite <- fetch_count_schedule, Hs. apply fetch_count_backoff.
  - rewrite <- sleeps_schedule, Hs.
    destruct k as [| k]; [reflexivity | apply sleeps_backoff].
Qed.

(** What one attempt raises is an [Error] when the transport raises
    nothing else. *)
Lemma try_block_raises_Error fetch url j failure :
  raises_Errors_only fetch ->
  snd (try_block url (fetch j)) = inl failure ->
  is_Error failure = true.
Proof.
  intros Hfetch. specialize (Hfetch j).
  destruct (fetch j) as [f | response]; simpl.
  - intros [= <-]. exact Hfetch.
  - destruct (negb (ok response)).
    + intros [= <-].
      destruct (handleErrorResponse_cases response)
        as [(e & -> & _) | (m & ->)]; reflexivity.
    + destruct (json response) as [f |]; [| discriminate].
      intros [= <-]. exact Hfetch.
Qed.

Lemma request_failed_of_Error last :
  match last with
  | Some failure => is_Error failure = true
  | None => True
  end ->
  exists msg,
    throw_new
      (new_KonnectSDKError
         (js_or (lastError_message last)
            (VStr "Request failed after retries"))
         None (VStr "REQUEST_FAILED") VUndefined)
    = ThrowSDK (request_failed msg).
Proof.
  destruct last as [[e | nm m | v] |]; simpl; intros H.
  - exists (message e). apply request_failed_of_message.
  - exists m. apply request_failed_of_message.
  - discriminate.
  - exists "". reflexivity.
Qed.

Lemma retry_loop_exits fetch url config n :
  raises_Errors_only fetch ->
  forall attempt last,
    match last with
    | Some failure => is_Error failure = true
    | None => True
    end ->
    match snd (retry_loop fetch url config n attempt last) with
    | Returned _ => True
    | Rethrown failure =>
        exists e, failure = ThrowSDK e /\ client_error_status e
    | Fallthrough last' =>
        match last' with
        | Some failure => is_Error failure = true
        | None => True
        end
    end.
Proof.
  intros Hfetch. induction n as [| n IH]; intros attempt last Hlast;
    [exact Hlast |].
  cbn [retry_loop].
  pose proof (try_block_raises_Error fetch url attempt) as Herr.
  destruct (try_block url (fetch attempt)) as [evs [failure | body]];
    [| exact I].
  specialize (Herr failure Hfetch eq_refl).
  destruct (is_client_error failure) eqn:Hc;
    [now apply rethrown_is_client_error |].
  destruct (attempt =? retryAttempts config - 1); [exact Herr |].
  specialize (IH (attempt + 1) (Some failure) Herr).
  destruct (retry_loop fetch url config n (attempt + 1) (Some failure))
    as [evs' r]. exact IH.
Qed.

(** Every failure of [makeRequest] is a classified error when the transport
    raises nothing but instances of [Error]. *)
Lemma makeRequest_failure_cases fetch url config failure :
  raises_Errors_only fetch ->
  snd (makeRequest fetch url config) = raise failure ->
  exists e,
    failure = ThrowSDK e
    /\ (client_error_status e \/ exists msg, e = request_failed msg).
Proof.
  intros Hfetch. unfold makeRequest.
  pose proof (retry_loop_exits fetch url config
                (Z.to_nat (retryAttempts config)) Hfetch 0 None I) as H.
  destruct (retry_loop fetch url config (Z.to_nat (retryAttempts config))
              0 None) as [evs [body | f | last]]; simpl in *.
  - discriminate.
  - intros [= <-]. destruct H as (e & -> & He). eauto.
  - destruct (request_failed_of_Error last H) as [msg ->].
    intros [= <-]. eauto.
Qed.

(** X3. When the transport raises nothing but instances of [Error] (from
    the call or from the parsing of a body), whatever [makeRequest] throws
    is a [KonnectSDKError]: either a classified error with a status in
    400..499 other than 429, rethrown as it was raised, or the generic error
    with the code REQUEST_FAILED, no status code and no details.  No
    transport or parse error escapes as it is. *)
Theorem makeRequest_throws_classified_errors_only
    (fetch : Z -> exn Response) (url : string) (config : RequestConfig)
    (failure : thrown) :
  raises_Errors_only fetch ->
  snd (makeRequest fetch url config) = raise failure ->
  exists e,
    failure = ThrowSDK e
    /\ (client_error_status e
        \/ (name e = "KonnectSDKError" /\ statusCode e = None
            /\ code e = VStr "REQUEST_FAILED" /\ details e = VUndefined
            /\ message e <> "")).
Proof.
  intros Hfetch Hf.
  destruct (makeRequest_failure_cases fetch url config failure Hfetch Hf)
    as (e & -> & [He | [msg ->]]).
  - eauto.
  - eexists. split; [reflexivity |]. right. repeat split.
    unfold request_failed. simpl.
    destruct (String.eqb_spec msg ""); [discriminate | assumption].
Qed.

Lemma makeRequest_throws_classified_errors_only_witness :
  raises_Errors_only always_500
  /\ snd (makeRequest always_500 "u" (mkConfig 30000 3))
     = raise (ThrowSDK (request_failed "HTTP 500: Internal Server Error"))
  /\ exists e,
       ThrowSDK (request_failed "HTTP 500: Internal Server Error")
       = ThrowSDK e
       /\ (client_error_status e
           \/ (name e = "KonnectSDKError" /\ statusCode e = None
               /\ code e = VStr "REQUEST_FAILED" /\ details e = VUndefined
               /\ message e <> "")).
Proof.
  assert (H : raises_Errors_only always_500) by (intros j; simpl; exact I).
  split; [exact H |]. split; [reflexivity |].
  apply (makeRequest_throws_classified_errors_only always_500 "u"
           (mkConfig 30000 3)); [exact H | reflexivity].
Defined.

(** With a whole number of attempts allowed: when every attempt is answered
    with a 2xx status and a body whose parsing raises an [Error], the call
    makes all its attempts and throws REQUEST_FAILED with the message of the
    last parse failure. *)
Lemma unparsable_success_bodies_are_retried
    (fetch : Z -> exn Response) (url : string) (config : RequestConfig) :
  1 <= retryAttempts config ->
  (forall j, 0 <= j < retryAttempts config ->
     exists response nm m,
       fetch j = inr response /\ ok response = true
       /\ json response = raise (ThrowError nm m)) ->
  exists evs response nm m,
    fetch (retryAttempts config - 1) = inr response
    /\ json response = raise (ThrowError nm m)
    /\ makeRequest fetch url config
       = (EvSetTimeout (timeout config) :: evs,
          raise (ThrowSDK (request_failed m)))
    /\ schedule evs = backoff_from url 0 (Z.to_nat (retryAttempts config)).
Proof.
  intros HR Hall.
  assert (Htb : forall j, 0 <= j < retryAttempts config ->
                 exists response nm m,
                   fetch j = inr response
                   /\ json response = raise (ThrowError nm m)
                   /\ snd (try_block url (fetch j))
                      = inl (ThrowError nm m)).
  { intros j Hj. destruct (Hall j Hj) as (r & nm & m & Hf & Hok & Hjs).
    exists r, nm, m. split; [exact Hf |]. split; [exact Hjs |].
    rewrite Hf. simpl. rewrite Hok, Hjs. reflexivity. }
  destruct (retry_loop_exhaust fetch url config
              (Z.to_nat (retryAttempts config)) 0 None)
    as (evs & last & Hloop & Hs & Hlast).
  - lia.
  - intros j Hj. destruct (Htb j Hj) as (r & nm & m & _ & _ & Hraise).
    eexists. split; [exact Hraise | reflexivity].
  - destruct (Z.to_nat (retryAttempts config)) as [| n] eqn:En; [lia |].
    destruct Hlast as (failure & Hf & ->).
    destruct (Htb (retryAttempts config - 1))
      as (r & nm & m & Hr & Hjs & Hraise); [lia |].
    rewrite Hraise in Hf. injection Hf as <-.
    exists (evs ++ [EvClearTimeout])%list, r, nm, m.
    split; [exact Hr |]. split; [exact Hjs |]. split.
    + unfold makeRequest. rewrite En, Hloop. cbn [lastError_message].
      rewrite request_failed_of_message. reflexivity.
    + rewrite schedule_app, Hs. simpl. apply app_nil_r.
Qed.

(* ================================================================== *)
(** ** Further properties of the classifier *)
(* ================================================================== *)

(** X5. The catch block of the executor rethrows what the classifier threw
    exactly when the status of the response lies in 400..499, is not 429,
    and the classifier produced a classified error; answers with any other
    status (below 400, 429, 500 and above) and answers whose classification
    itself failed are retried. *)
Theorem classifier_error_is_rethrown_iff (response : Response) :
  is_client_error (handleErrorResponse response) = true
  <-> (400 <= status response <= 499 /\ status response <> 429
       /\ exists e, handleErrorResponse response = ThrowSDK e).
Proof.
  split.
  - intros H. destruct (rethrown_is_client_error _ H) as (e & He & Hst).
    destruct (handleErrorResponse_cases response)
      as [(e' & He' & Hsc) | (m & Hm)]; [| congruence].
    assert (e' = e) by congruence. subst e'.
    destruct Hst as (sc & Hsc' & Hrange & Hne).
    assert (sc = status response) by congruence. subst sc.
    split; [exact Hrange |]. split; [exact Hne | eauto].
  - intros (Hrange & Hne & e & He).
    destruct (handleErrorResponse_cases response)
      as [(e' & He' & Hsc) | (m & Hm)]; [| congruence].
    rewrite He'. apply client_error_rethrown.
    exists (status response). auto.
Qed.

(** X6. Whenever the classifier produces a classified error, the status of
    the response determines everything but its message: the status code is
    that of the response; the name and the code are those of the
    authentication, not-found and validation errors for 401, 404 and 400,
    and for any other status the name is [KonnectSDKError] and the code is
    the [code] property of the body as it is; the details are absent for 401
    and 404 and are the whole body otherwise. *)
Theorem classified_error_follows_the_status
    (response : Response) (e : KonnectSDKError) :
  handleErrorResponse response = ThrowSDK e ->
  statusCode e = Some (status response)
  /\ name e = (if status response =? 401 then "AuthenticationError"
               else if status response =? 404 then "PaymentNotFoundError"
               else if status response =? 400 then "ValidationError"
               else "KonnectSDKError")
  /\ code e = (if status response =? 401 then VStr "INVALID_AUTH"
               else if status response =? 404 then VStr "PAYMENT_NOT_FOUND"
               else if status response =? 400 then VStr "VALIDATION_ERROR"
               else prop_or_undefined (classifier_data response) "code")
  /\ details e = (if (status response =? 401) || (status response =? 404)
                  then VUndefined
                  else classifier_data response).
Proof.
  unfold handleErrorResponse. fold (classifier_data response).
  destruct (Z.eqb_spec (status response) 401) as [E1 | _].
  { intros [= <-]. rewrite E1. repeat split. }
  destruct (Z.eqb_spec (status response) 404) as [E2 | _].
  { destruct (get_prop (classifier_data response) "paymentId")
      as [t | pid] eqn:G; simpl.
    - destruct (get_prop_raises _ _ _ G) as [m ->]. discriminate.
    - destruct (new_PaymentNotFoundError_cases
                  (js_or pid (VStr "unknown"))) as [(id & _ & ->) | ->];
        simpl; [| discriminate].
      intros [= <-]. rewrite E2. repeat split. }
  destruct (Z.eqb_spec (status response) 400) as [E3 | _].
  { destruct (get_prop (classifier_data response) "message")
      as [t | msg] eqn:G; simpl.
    - destruct (get_prop_raises _ _ _ G) as [m ->]. discriminate.
    - destruct (new_ValidationError_cases
                  (js_or msg (VStr "Validation failed"))
                  (classifier_data response)) as [[m ->] | ->];
        simpl; [| discriminate].
      intros [= <-]. rewrite E3. repeat split. }
  destruct (get_prop (classifier_data response) "message")
    as [t | msg] eqn:G; simpl.
  - destruct (get_prop_raises _ _ _ G) as [m ->]. discriminate.
  - unfold prop_or_undefined.
    destruct (get_prop (classifier_data response) "code")
      as [t | c] eqn:G'; simpl.
    + destruct (get_prop_raises _ _ _ G') as [m ->]. discriminate.
    + match goal with
      | |- context [new_KonnectSDKError ?a ?b ?c ?d] =>
          destruct (new_KonnectSDKError_cases a b c d) as [[m ->] | ->]
      end; simpl; [| discriminate].
      intros [= <-]. repeat split.
Qed.

Lemma classified_error_follows_the_status_witness :
  handleErrorResponse response_403 = ThrowSDK error_403
  /\ statusCode error_403 = Some 403
  /\ name error_403 = "KonnectSDKError"
  /\ code error_403 = VUndefined
  /\ details error_403 = VObj [("message", VStr "No access")].
Proof.
  split; [reflexivity |].
  apply (classified_error_follows_the_status response_403 error_403).
  reflexivity.
Defined.

(** X7. A body that is an object whose [message] and [paymentId] properties
    are strings or absent is always classified, whatever the status and the
    other properties, and the message of the classified error is never
    empty. *)
Theorem object_body_is_always_classified
    (st : Z) (stText : string) (props : list (string * jsval)) :
  string_or_absent (assoc "message" props) ->
  string_or_absent (assoc "paymentId" props) ->
  exists e,
    handleErrorResponse (mkResponse st stText (ret (VObj props)))
    = ThrowSDK e
    /\ message e <> "".
Proof.
  intros Hm Hp. unfold handleErrorResponse. simpl.
  destruct (st =? 401);
    [eexists; split; [reflexivity | discriminate] |].
  destruct (st =? 404).
  { destruct (assoc "paymentId" props) as [[| | | | id | |] |];
      simpl in Hp; try contradiction.
    - unfold js_or. simpl. destruct (String.eqb_spec id ""); simpl;
        eexists; (split; [reflexivity | discriminate]).
    - eexists; split; [reflexivity | discriminate]. }
  destruct (st =? 400).
  { destruct (assoc "message" props) as [[| | | | m | |] |];
      simpl in Hm; try contradiction.
    - unfold js_or. simpl. destruct (String.eqb_spec m ""); simpl;
        eexists; (split; [reflexivity |]); [discriminate | assumption].
    - eexists; split; [reflexivity | discriminate]. }
  destruct (assoc "code" props) as [c |];
    (destruct (assoc "message" props) as [[| | | | m | |] |];
     simpl in Hm; try contradiction;
     [ unfold js_or; simpl; destruct (String.eqb_spec m ""); simpl;
       eexists; (split; [reflexivity |]); [discriminate | assumption]
     | eexists; split; [reflexivity | discriminate] ]).
Qed.

Lemma object_body_is_always_classified_witness :
  exists e,
    handleErrorResponse
      (mkResponse 403 "Forbidden"
         (ret (VObj [("message", VStr "No access")])))
    = ThrowSDK e
    /\ message e <> "".
Proof.
  apply (object_body_is_always_classified 403 "Forbidden"
           [("message", VStr "No access")]); exact I.
Defined.

(* ================================================================== *)
(** ** Further properties of the deadline timer *)
(* ================================================================== *)

(** X8. When the transport calls fail with nothing that the catch block
    rethrows, a call arms its deadline timer first, with the configured
    duration, arms no other timer, and leaves no timer pending when it ends,
    whether it returns, rethrows a client error or exhausts its attempts. *)
Theorem deadline_timer_is_armed_once_and_cleared
    (fetch : Z -> exn Response) (url : string) (config : RequestConfig) :
  (forall j failure, fetch j = inl failure ->
                     is_client_error failure = false) ->
  exists evs,
    fst (makeRequest fetch url config) = EvSetTimeout (timeout config) :: evs
    /\ timers_armed evs = O
    /\ pending_after true evs = false.
Proof.
  intros Hfetch.
  pose proof (exactly_one_timer_armed fetch url config) as H1.
  pose proof (no_timer_pending_at_exit fetch url config Hfetch) as H2.
  assert (H : exists evs, fst (makeRequest fetch url config)
                          = EvSetTimeout (timeout config) :: evs).
  { unfold makeRequest.
    destruct (retry_loop fetch url config (Z.to_nat (retryAttempts config))
                0 None) as [evs [body | failure | last]];
      eexists; reflexivity. }
  destruct H as [evs Hevs]. exists evs. rewrite Hevs in H1, H2.
  simpl in H1, H2. split; [exact Hevs |]. split; [lia | exact H2].
Qed.

Lemma deadline_timer_is_armed_once_and_cleared_witness :
  exists evs,
    fst (makeRequest first_500_then_403 "u" (mkConfig 30000 3))
    = EvSetTimeout 30000 :: evs
    /\ timers_armed evs = O
    /\ pending_after true evs = false.
Proof.
  apply (deadline_timer_is_armed_once_and_cleared first_500_then_403 "u"
           (mkConfig 30000 3)).
  intros j failure. unfold first_500_then_403.
  destruct (j =? 0); discriminate.
Defined.

(* ================================================================== *)
(** ** Properties of the validation of the configuration *)
(* ================================================================== *)

Lemma trim_end_blank s : (trim_end s =? "")%string = blank s.
Proof.
  induction s as [| c s IH]; [reflexivity |].
  unfold blank in *. cbn [trim_end all_chars].
  destruct (trim_end s) as [| c' s'].
  - simpl in IH. rewrite <- IH. destruct (is_white_space c); reflexivity.
  - simpl in IH. rewrite <- IH. now rewrite andb_false_r.
Qed.

Lemma trim_start_blank s : blank (trim_start s) = blank s.
Proof.
  induction s as [| c s IH]; [reflexivity |].
  unfold blank in *. cbn [trim_start].
  destruct (is_white_space c) eqn:E; [| reflexivity].
  rewrite IH. simpl. now rewrite E.
Qed.

(** A string is empty or trims to the empty string exactly when it holds
    nothing but white space. *)
Lemma empty_or_trims_to_empty s :
  ((s =? "")%string || (trim s =? "")%string)%bool = blank s.
Proof.
  unfold trim. rewrite trim_end_blank, trim_start_blank.
  destruct s; reflexivity.
Qed.

Lemma num_truthy_lt0 x : (num_truthy x && num_lt0 x)%bool = num_lt0 x.
Proof.
  destruct x as [n |]; simpl; [| reflexivity].
  destruct (Z.eqb_spec n 0) as [-> | _]; reflexivity.
Qed.

(** X9. [validateConfig] accepts a configuration exactly when the API key
    holds a character that is not white space and neither the timeout nor
    the number of attempts is negative; absent values and zeros pass. *)
Theorem validateConfig_accepts_iff (config : KonnectConfig) :
  validateConfig config = ret tt
  <-> (blank (cfg_apiKey config) = false
       /\ num_lt0 (cfg_timeout config) = false
       /\ num_lt0 (cfg_retryAttempts config) = false).
Proof.
  unfold validateConfig.
  rewrite empty_or_trims_to_empty, !num_truthy_lt0.
  destruct (blank (cfg_apiKey config));
    [split; [discriminate | intros [H _]; discriminate] |].
  destruct (num_lt0 (cfg_timeout config));
    [split; [discriminate | intros (_ & H & _); discriminate] |].
  destruct (num_lt0 (cfg_retryAttempts config));
    [split; [discriminate | intros (_ & _ & H); discriminate] |].
  split; auto.
Qed.

(** X10. Whatever the constructor throws is a validation error with status
    400, the code VALIDATION_ERROR and no details; the API key is checked
    first, so a blank key is reported whatever the other fields hold. *)
Theorem constructor_throws_validation_errors_only
    (config : KonnectConfig) (failure : thrown) :
  new_KonnectSDK config = raise failure ->
  exists msg,
    failure = ThrowSDK (mkSDKError "ValidationError" msg (Some 400)
                          (VStr "VALIDATION_ERROR") VUndefined)
    /\ (if blank (cfg_apiKey config)
        then msg = "API key is required"
        else msg = "Timeout must be a positive number"
             \/ msg = "Retry attempts must be a positive number").
Proof.
  unfold new_KonnectSDK, validateConfig.
  rewrite empty_or_trims_to_empty.
  destruct (blank (cfg_apiKey config)).
  { simpl. intros [= <-]. eexists. split; reflexivity. }
  destruct (num_truthy (cfg_timeout config) && num_lt0 (cfg_timeout config)).
  { simpl. intros [= <-]. eexists. split; [reflexivity | auto]. }
  destruct (num_truthy (cfg_retryAttempts config)
            && num_lt0 (cfg_retryAttempts config)).
  { simpl. intros [= <-]. eexists. split; [reflexivity | auto]. }
  simpl. discriminate.
Qed.

Lemma constructor_throws_validation_errors_only_witness :
  exists msg,
    ThrowSDK (mkSDKError "ValidationError" "API key is required" (Some 400)
                (VStr "VALIDATION_ERROR") VUndefined)
    = ThrowSDK (mkSDKError "ValidationError" msg (Some 400)
                  (VStr "VALIDATION_ERROR") VUndefined)
    /\ (if blank "  "
        then msg = "API key is required"
        else msg = "Timeout must be a positive number"
             \/ msg = "Retry attempts must be a positive number").
Proof.
  apply (constructor_throws_validation_errors_only
           (mkKonnectConfig "  " None (Some (-5)) None None)).
  reflexivity.
Defined.

(** X11. [getEnvironment] returns the environment that the instance was
    configured with, [sandbox] when none was given. *)
Theorem getEnvironment_returns_the_configured_environment
    (config : KonnectConfig) (this : KonnectSDK) :
  new_KonnectSDK config = ret this ->
  getEnvironment this = match cfg_environment config with
                        | Some env => env
                        | None => sandbox
                        end.
Proof.
  unfold new_KonnectSDK.
  destruct (validateConfig config) as [t | []]; [discriminate |].
  simpl. intros [= <-]. unfold getEnvironment. cbn [sdk_baseUrl].
  destruct (cfg_environment config) as [[|] |]; reflexivity.
Qed.

Lemma getEnvironment_returns_the_configured_environment_witness :
  getEnvironment
    (mkKonnectSDK "key" (BASE_URLS production) 30000 3 (VObj []))
  = production.
Proof.
  apply (getEnvironment_returns_the_configured_environment
           (mkKonnectConfig "key" (Some production) None None None)).
  reflexivity.
Defined.

(* ================================================================== *)
(** ** The regular expression matcher and [isValidEmail] *)
(* ================================================================== *)

Section Matcher.

Lemma append_empty s1 s2 : (s1 ++ s2)%string = "" -> s1 = "" /\ s2 = "".
Proof. destruct s1; [auto | discriminate]. Qed.

Lemma lang_empty_nullable r s : lang r s -> s = "" -> nullable r = true.
Proof.
  induction 1 as [| member c Hc | r1 r2 s1 s2 _ IH1 _ IH2 | r1 r2 s _ IH
                 | r1 r2 s _ IH | r | r s1 s2 _ _ _ _]; intros E; simpl;
    auto; try discriminate.
  - apply append_empty in E. destruct E. now rewrite IH1, IH2.
  - now rewrite IH.
  - rewrite IH by assumption. apply orb_true_r.
Qed.

Lemma nullable_lang_empty r : nullable r = true -> lang r "".
Proof.
  induction r as [| | member | r1 IH1 r2 IH2 | r1 IH1 r2 IH2 | r IH]; simpl;
    intros H; try discriminate.
  - constructor.
  - apply andb_prop in H. destruct H.
    change (lang (RCat r1 r2) ("" ++ "")). constructor; auto.
  - apply orb_prop in H. destruct H; [apply lang_alt_l | apply lang_alt_r];
      auto.
  - constructor.
Qed.

(** The strings of the derivative are the remainders of the strings that
    start with the code unit. *)
Lemma deriv_sound r : forall c s, lang (deriv c r) s -> lang r (String c s).
Proof.
  induction r as [| | member | r1 IH1 r2 IH2 | r1 IH1 r2 IH2 | r IH];
    intros c s H; simpl in H.
  - inversion H.
  - inversion H.
  - destruct (member c) eqn:E; inversion H; subst. now constructor.
  - assert (Hcat : forall s', lang (RCat (deriv c r1) r2) s' ->
                              lang (RCat r1 r2) (String c s')).
    { intros s' H'. inversion H'; subst.
      change (lang (RCat r1 r2) (String c s1 ++ s2)). constructor; auto. }
    destruct (nullable r1) eqn:N; [| now apply Hcat].
    inversion H; subst; [now apply Hcat |].
    change (lang (RCat r1 r2) ("" ++ String c s)).
    constructor; [now apply nullable_lang_empty | auto].
  - inversion H; subst; [apply lang_alt_l | apply lang_alt_r]; auto.
  - inversion H; subst.
    change (lang (RStar r) (String c s1 ++ s2)). constructor; auto.
Qed.

Lemma deriv_complete r s' :
  lang r s' -> forall c s, s' = String c s -> lang (deriv c r) s.
Proof.
  induction 1 as [| member c0 Hc | r1 r2 s1 s2 H1 IH1 H2 IH2 | r1 r2 s0 _ IH
                 | r1 r2 s0 _ IH | r | r s1 s2 H1 IH1 H2 IH2];
    intros c s E; simpl.
  - discriminate.
  - injection E as -> <-. rewrite Hc. constructor.
  - destruct s1 as [| c1 s1].
    + simpl in E. rewrite (lang_empty_nullable _ _ H1 eq_refl).
      apply lang_alt_r. now apply IH2.
    + simpl in E. injection E as -> <-.
      assert (Hcat : lang (RCat (deriv c r1) r2) (s1 ++ s2))
        by (constructor; auto).
      destruct (nullable r1); [now apply lang_alt_l | exact Hcat].
  - apply lang_alt_l. now apply IH.
  - apply lang_alt_r. now apply IH.
  - discriminate.
  - destruct s1 as [| c1 s1].
    + simpl in E. now apply IH2.
    + simpl in E. injection E as -> <-. constructor; auto.
Qed.

(** The matcher decides membership in the language. *)
Lemma regex_test_lang s : forall r, regex_test r s = true <-> lang r s.
Proof.
  induction s as [| c s IH]; intros r; simpl.
  - split; [apply nullable_lang_empty |].
    intros H. now apply (lang_empty_nullable r "").
  - rewrite IH. split; [apply deriv_sound |].
    intros H. now apply (deriv_complete r (String c s)).
Qed.

Lemma all_chars_app p s1 s2 :
  all_chars p (s1 ++ s2) = (all_chars p s1 && all_chars p s2)%bool.
Proof.
  induction s1 as [| c s1 IH]; simpl; [reflexivity |].
  now rewrite IH, andb_assoc.
Qed.

Lemma count_char_app c s1 s2 :
  count_char c (s1 ++ s2) = (count_char c s1 + count_char c s2)%nat.
Proof.
  induction s1 as [| c1 s1 IH]; simpl; [reflexivity |]. rewrite IH. lia.
Qed.

Lemma length_app s1 s2 :
  String.length (s1 ++ s2)
  = (String.length s1 + String.length s2)%nat.
Proof. induction s1 as [| c s1 IH]; simpl; [| rewrite IH]; reflexivity. Qed.

Lemma lang_class_inv member s :
  lang (RClass member) s -> exists c, s = String c "" /\ member c = true.
Proof. inversion 1; subst. eauto. Qed.

Lemma lang_star_class member s :
  lang (RStar (RClass member)) s <-> all_chars member s = true.
Proof.
  split.
  - remember (RStar (RClass member)) as r eqn:Er.
    induction 1 as [| | | | | r0 | r0 s1 s2 H1 _ _ IH2]; try discriminate.
    + reflexivity.
    + injection Er as ->. destruct (lang_class_inv _ _ H1) as (c & -> & Hc).
      simpl. rewrite Hc. now apply IH2.
  - induction s as [| c s IH]; simpl; intros H; [constructor |].
    apply andb_prop in H. destruct H as [Hc Hs].
    change (lang (RStar (RClass member)) (String c "" ++ s)).
    constructor; [now constructor | auto].
Qed.

Lemma lang_plus_class member s :
  lang (RPlus (RClass member)) s <-> (s <> "" /\ all_chars member s = true).
Proof.
  unfold RPlus. split.
  - inversion 1 as [| | r1 r2 s1 s2 H1 H2 | | | |]; subst.
    destruct (lang_class_inv _ _ H1) as (c & -> & Hc).
    apply lang_star_class in H2. simpl. rewrite Hc, H2.
    split; [discriminate | reflexivity].
  - intros [Hne H]. destruct s as [| c s]; [contradiction |].
    simpl in H. apply andb_prop in H. destruct H as [Hc Hs].
    change (lang (RCat (RClass member) (RStar (RClass member)))
              (String c "" ++ s)).
    constructor; [now constructor | now apply lang_star_class].
Qed.

Lemma lang_literal c s :
  lang (RClass (Ascii.eqb c)) s <-> s = String c "".
Proof.
  split.
  - intros H. destruct (lang_class_inv _ _ H) as (c' & -> & Hc).
    apply Ascii.eqb_eq in Hc. now subst.
  - intros ->. constructor. apply Ascii.eqb_refl.
Qed.

End Matcher.

(** The language of the email pattern. *)
Lemma isValidEmail_parts (email : string) :
  isValidEmail email = true
  <-> exists local domain tld,
        email = (local ++ "@" ++ domain ++ "." ++ tld)%string
        /\ email_part local /\ email_part domain /\ email_part tld.
Proof.
  unfold isValidEmail, email_part. rewrite regex_test_lang.
  unfold emailRegex. split.
  - intros H.
    inversion H as [| | ? ? a s1 Ha H1 | | | |]; subst.
    inversion H1 as [| | ? ? at_ s2 Hat H2 | | | |]; subst.
    inversion H2 as [| | ? ? b s3 Hb H3 | | | |]; subst.
    inversion H3 as [| | ? ? dot c Hdot Hc | | | |]; subst.
    apply lang_plus_class in Ha, Hb, Hc.
    apply lang_literal in Hat, Hdot. subst.
    exists a, b, c. auto.
  - intros (a & b & c & -> & Ha & Hb & Hc).
    apply lang_plus_class in Ha, Hb, Hc.
    repeat (constructor; auto); now apply lang_literal.
Qed.

(** X12. [isValidEmail] accepts exactly the strings of the form
    [local@domain.tld] in which each of the three parts is non-empty and
    holds neither white space nor [@] (so the domain and the last part may
    themselves hold dots). *)
Theorem isValidEmail_iff (email : string) :
  isValidEmail email = true
  <-> exists local domain tld,
        email = (local ++ "@" ++ domain ++ "." ++ tld)%string
        /\ email_part local /\ email_part domain /\ email_part tld.
Proof. exact (isValidEmail_parts email). Qed.

(** X13. An address that [isValidEmail] accepts holds exactly one [@], no
    white space, and at least five code units. *)
Theorem valid_email_has_one_at_and_no_space (email : string) :
  isValidEmail email = true ->
  count_char "@" email = 1%nat
  /\ all_chars (fun c => negb (is_white_space c)) email = true
  /\ (5 <= String.length email)%nat.
Proof.
  intros H. apply isValidEmail_parts in H.
  destruct H as (a & b & c & -> & [Ha Pa] & [Hb Pb] & [Hc Pc]).
  assert (Hpart : forall s, all_chars not_space_nor_at s = true ->
                    count_char "@" s = O
                    /\ all_chars (fun c => negb (is_white_space c)) s = true).
  { induction s as [| x s IH]; cbn [count_char all_chars]; [auto |].
    intros Hx. apply andb_prop in Hx. destruct Hx as [Hx Hs].
    destruct (IH Hs) as [IH1 IH2]. unfold not_space_nor_at in Hx.
    apply andb_prop in Hx. destruct Hx as [Hw Hat].
    rewrite Hw, IH2. apply negb_true_iff in Hat.
    rewrite Ascii.eqb_sym, Hat, IH1. auto. }
  destruct (Hpart a Pa) as [Ca Wa], (Hpart b Pb) as [Cb Wb],
    (Hpart c Pc) as [Cc Wc].
  rewrite !count_char_app, !all_chars_app, Ca, Cb, Cc, Wa, Wb, Wc.
  split; [reflexivity |]. split; [reflexivity |].
  rewrite !length_app.
  destruct a; [contradiction |]. destruct b; [contradiction |].
  destruct c; [contradiction |]. simpl. lia.
Qed.

Lemma valid_email_has_one_at_and_no_space_witness :
  count_char "@" "test@example.com" = 1%nat
  /\ all_chars (fun c => negb (is_white_space c)) "test@example.com" = true
  /\ (5 <= String.length "test@example.com")%nat.
Proof.
  apply (valid_email_has_one_at_and_no_space "test@example.com").
  reflexivity.
Defined.

(* ================================================================== *)
(** ** Properties of the merge with the defaults and of [initPayment] *)
(* ================================================================== *)

Lemma assoc_app key l1 l2 :
  assoc key (l1 ++ l2)
  = match assoc key l1 with
    | Some v => Some v
    | None => assoc key l2
    end.
Proof.
  induction l1 as [| [k v] l1 IH]; simpl; [reflexivity |].
  destruct (key =? k)%string; [reflexivity | exact IH].
Qed.

Lemma get_prop_defined o key :
  o <> VNull -> o <> VUndefined -> exists v, get_prop o key = ret v.
Proof.
  destruct o; simpl; intros H1 H2; try contradiction; eauto.
  destruct (assoc key props); eauto.
Qed.

Lemma read_props_defined o keys :
  o <> VNull -> o <> VUndefined -> exists l, read_props o keys = ret l.
Proof.
  intros H1 H2. induction keys as [| k keys [l IH]]; simpl; [eauto |].
  destruct (get_prop_defined o k H1 H2) as [v ->]. rewrite IH.
  simpl. eauto.
Qed.

Lemma read_props_assoc o key keys :
  forall l,
    read_props o keys = ret l ->
    assoc key l = if existsb (String.eqb key) keys
                  then Some (prop_or_undefined o key)
                  else None.
Proof.
  induction keys as [| k keys IH]; simpl; intros l H.
  - injection H as <-. reflexivity.
  - destruct (get_prop o k) as [t | v] eqn:G; [discriminate |].
    destruct (read_props o keys) as [t | others]; [discriminate |].
    simpl in H. injection H as <-. simpl.
    destruct (String.eqb_spec key k) as [-> | _]; simpl.
    + unfold prop_or_undefined. now rewrite G.
    + now apply IH.
Qed.

(** Reading a property of the merged request. *)
Lemma mergeWithDefaults_lookup this req merged key :
  mergeWithDefaults this req = ret merged ->
  get_prop merged key = ret (merged_prop this req key).
Proof.
  unfold mergeWithDefaults, merged_prop.
  destruct (read_props (sdk_defaults this) default_keys) as [t | l] eqn:R;
    cbn [bind ret]; [discriminate |].
  intros [= <-]. cbn [get_prop]. rewrite assoc_app.
  destruct (assoc key (own_props req)); [reflexivity |].
  rewrite (read_props_assoc _ key _ _ R).
  destruct (existsb (String.eqb key) default_keys); reflexivity.
Qed.

Lemma mergeWithDefaults_defined this req :
  sdk_defaults this <> VNull -> sdk_defaults this <> VUndefined ->
  exists merged, mergeWithDefaults this req = ret merged.
Proof.
  intros H1 H2. unfold mergeWithDefaults.
  destruct (read_props_defined (sdk_defaults this) default_keys H1 H2)
    as [l ->]. simpl. eauto.
Qed.



Section InitPaymentProperties.

Variable StringToNumber_le_0 : string -> bool.
Variable this : KonnectSDK.
Variable fetch : Z -> exn Response.
Variable req : jsval.

Hypothesis defaults_not_null : sdk_defaults this <> VNull.
Hypothesis defaults_defined : sdk_defaults this <> VUndefined.

(** The validation of the merged request reads the merged properties. *)
Lemma initPayment_unfold :
  exists merged,
    (forall key, get_prop merged key = ret (merged_prop this req key))
    /\ initPayment StringToNumber_le_0 this fetch req
       = wrapResponse
           match validateInitPaymentRequest StringToNumber_le_0 merged with
           | inl failure => ([], raise failure)
           | inr _ => request this fetch "/payments/init-payment"
           end.
Proof.
  destruct (mergeWithDefaults_defined this req defaults_not_null
              defaults_defined) as [merged Hm].
  exists merged. split.
  - intros key. now apply mergeWithDefaults_lookup.
  - unfold initPayment. rewrite Hm. reflexivity.
Qed.

Lemma initPayment_without_wallet :
  truthy (merged_prop this req "receiverWalletId") = false ->
  initPayment StringToNumber_le_0 this fetch req
  = ([], ret (validation_outcome
                ("receiverWalletId is required "
                 ++ "(either in request or defaults)"))).
Proof.
  intros Hw. destruct initPayment_unfold as (merged & Hget & ->).
  unfold validateInitPaymentRequest. rewrite Hget. cbn [bind ret].
  rewrite Hw. reflexivity.
Qed.

Lemma initPayment_with_wallet :
  truthy (merged_prop this req "receiverWalletId") = true ->
  exists merged,
    (forall key, get_prop merged key = ret (merged_prop this req key))
    /\ initPayment StringToNumber_le_0 this fetch req
       = wrapResponse
           match
             (amount <- get_prop merged "amount" ;;
              nonpositive <- (if negb (truthy amount) then ret true
                              else js_le_0 StringToNumber_le_0 amount) ;;
              if (nonpositive : bool) then
                raise (throw_new
                         (new_ValidationError
                            (VStr "amount must be a positive number")
                            VUndefined))
              else
                email <- get_prop merged "email" ;;
                if truthy email then
                  address <- to_string email ;;
                  if negb (isValidEmail address) then
                    raise (throw_new
                             (new_ValidationError
                                (VStr "Invalid email format") VUndefined))
                  else ret tt
                else ret tt)
           with
           | inl failure => ([], raise failure)
           | inr _ => request this fetch "/payments/init-payment"
           end.
Proof.
  intros Hw. destruct initPayment_unfold as (merged & Hget & ->).
  exists merged. split; [exact Hget |].
  unfold validateInitPaymentRequest. rewrite (Hget "receiverWalletId").
  cbn [bind ret]. rewrite Hw. reflexivity.
Qed.

End InitPaymentProperties.

(** X15. A payment request whose merged [receiverWalletId] is falsy is
    rejected before anything else is checked and before any effect: no timer
    is armed, no transport call is made, and the outcome is the error arm
    with the validation error that asks for the wallet. *)
Theorem initPayment_requires_a_wallet
    (StringToNumber_le_0 : string -> bool) (this : KonnectSDK)
    (fetch : Z -> exn Response) (req : jsval) :
  sdk_defaults this <> VNull -> sdk_defaults this <> VUndefined ->
  truthy (merged_prop this req "receiverWalletId") = false ->
  initPayment StringToNumber_le_0 this fetch req
  = ([], ret (validation_outcome
                ("receiverWalletId is required "
                 ++ "(either in request or defaults)"))).
Proof.
  intros H1 H2 Hw. now apply initPayment_without_wallet.
Qed.

Lemma initPayment_requires_a_wallet_witness :
  initPayment no_string_conversion sample_sdk always_500
    (VObj [("amount", VNum 1000)])
  = ([], ret (validation_outcome
                ("receiverWalletId is required "
                 ++ "(either in request or defaults)"))).
Proof.
  apply (initPayment_requires_a_wallet no_string_conversion sample_sdk
           always_500 (VObj [("amount", VNum 1000)]));
    [discriminate | discriminate | reflexivity].
Defined.

(** X16. A [receiverWalletId] property of the request hides the default
    wallet even when its value is falsy ([undefined], [null], the empty
    string): such a request is rejected although the instance has a default
    wallet. *)
Theorem falsy_request_wallet_hides_the_default
    (StringToNumber_le_0 : string -> bool) (this : KonnectSDK)
    (fetch : Z -> exn Response) (req : jsval)
    (wallet default_wallet : jsval) :
  get_prop (sdk_defaults this) "receiverWalletId" = ret default_wallet ->
  truthy default_wallet = true ->
  assoc "receiverWalletId" (own_props req) = Some wallet ->
  truthy wallet = false ->
  initPayment StringToNumber_le_0 this fetch req
  = ([], ret (validation_outcome
                ("receiverWalletId is required "
                 ++ "(either in request or defaults)"))).
Proof.
  intros Hd _ Hreq Hw.
  apply initPayment_without_wallet.
  - intros E. rewrite E in Hd. discriminate.
  - intros E. rewrite E in Hd. discriminate.
  - unfold merged_prop. now rewrite Hreq.
Qed.

Lemma falsy_request_wallet_hides_the_default_witness :
  initPayment no_string_conversion sample_sdk_with_wallet always_500
    (VObj [("receiverWalletId", VUndefined); ("amount", VNum 1000)])
  = ([], ret (validation_outcome
                ("receiverWalletId is required "
                 ++ "(either in request or defaults)"))).
Proof.
  apply (falsy_request_wallet_hides_the_default no_string_conversion
           sample_sdk_with_wallet always_500
           (VObj [("receiverWalletId", VUndefined); ("amount", VNum 1000)])
           VUndefined (VStr "wallet-1"));
    reflexivity.
Defined.

(** X17. A payment request with a wallet whose [amount] is missing, falsy,
    or a number that is not positive is rejected with the validation error
    on the amount, again with no timer armed and no transport call made. *)
Theorem initPayment_rejects_a_nonpositive_amount
    (StringToNumber_le_0 : string -> bool) (this : KonnectSDK)
    (fetch : Z -> exn Response) (req : jsval) :
  sdk_defaults this <> VNull -> sdk_defaults this <> VUndefined ->
  truthy (merged_prop this req "receiverWalletId") = true ->
  (truthy (merged_prop this req "amount") = false
   \/ exists n, merged_prop this req "amount" = VNum n /\ n <= 0) ->
  initPayment StringToNumber_le_0 this fetch req
  = ([], ret (validation_outcome "amount must be a positive number")).
Proof.
  intros H1 H2 Hw Ha.
  destruct (initPayment_with_wallet StringToNumber_le_0 this fetch req
              H1 H2 Hw) as (merged & Hget & ->).
  rewrite (Hget "amount"). cbn [bind ret].
  destruct Ha as [Ha | (n & Ha & Hn)]; rewrite Ha.
  - reflexivity.
  - cbn [truthy js_le_0 negb bind ret].
    destruct (Z.eqb_spec n 0) as [-> | _]; [reflexivity |].
    cbn [negb bind ret].
    destruct (Z.leb_spec n 0); [reflexivity | lia].
Qed.

Lemma initPayment_rejects_a_nonpositive_amount_witness :
  initPayment no_string_conversion sample_sdk_with_wallet always_500
    (VObj [("amount", VNum (-100))])
  = ([], ret (validation_outcome "amount must be a positive number")).
Proof.
  apply (initPayment_rejects_a_nonpositive_amount no_string_conversion
           sample_sdk_with_wallet always_500
           (VObj [("amount", VNum (-100))]));
    [discriminate | discriminate | reflexivity |].
  right. exists (-100). split; [reflexivity | lia].
Defined.

(** X18. A payment request with a wallet and a positive amount whose [email]
    is a non-empty string that [isValidEmail] refuses is rejected with the
    validation error on the email format, with no transport call made. *)
Theorem initPayment_rejects_an_invalid_email
    (StringToNumber_le_0 : string -> bool) (this : KonnectSDK)
    (fetch : Z -> exn Response) (req : jsval) (n : Z) (address : string) :
  sdk_defaults this <> VNull -> sdk_defaults this <> VUndefined ->
  truthy (merged_prop this req "receiverWalletId") = true ->
  merged_prop this req "amount" = VNum n -> 0 < n ->
  merged_prop this req "email" = VStr address -> address <> "" ->
  isValidEmail address = false ->
  initPayment StringToNumber_le_0 this fetch req
  = ([], ret (validation_outcome "Invalid email format")).
Proof.
  intros H1 H2 Hw Ha Hn He Hne Hinvalid.
  destruct (initPayment_with_wallet StringToNumber_le_0 this fetch req
              H1 H2 Hw) as (merged & Hget & ->).
  rewrite (Hget "amount"), (Hget "email"), Ha, He.
  cbn [bind ret truthy js_le_0].
  destruct (Z.eqb_spec n 0) as [-> | _]; [lia |]. cbn [negb bind ret].
  destruct (Z.leb_spec n 0); [lia |].
  destruct (String.eqb_spec address ""); [contradiction |].
  cbn [negb to_string ToString bind ret]. rewrite Hinvalid. reflexivity.
Qed.

Lemma initPayment_rejects_an_invalid_email_witness :
  initPayment no_string_conversion sample_sdk_with_wallet always_500
    (VObj [("amount", VNum 1000); ("email", VStr "a b@example.com")])
  = ([], ret (validation_outcome "Invalid email format")).
Proof.
  apply (initPayment_rejects_an_invalid_email no_string_conversion
           sample_sdk_with_wallet always_500
           (VObj [("amount", VNum 1000); ("email", VStr "a b@example.com")])
           1000 "a b@example.com");
    try discriminate; try reflexivity.
Defined.

(** X19. A payment request with a wallet (its own or the default one), a
    positive amount, and an [email] that is falsy or a string that
    [isValidEmail] accepts passes validation: the outcome of [initPayment]
    is the wrapped outcome of the request to [/payments/init-payment]. *)
Theorem initPayment_sends_a_valid_request
    (StringToNumber_le_0 : string -> bool) (this : KonnectSDK)
    (fetch : Z -> exn Response) (req : jsval) (n : Z) :
  sdk_defaults this <> VNull -> sdk_defaults this <> VUndefined ->
  truthy (merged_prop this req "receiverWalletId") = true ->
  merged_prop this req "amount" = VNum n -> 0 < n ->
  (truthy (merged_prop this req "email") = false
   \/ exists address, merged_prop this req "email" = VStr address
                      /\ isValidEmail address = true) ->
  initPayment StringToNumber_le_0 this fetch req
  = wrapResponse (request this fetch "/payments/init-payment").
Proof.
  intros H1 H2 Hw Ha Hn He.
  destruct (initPayment_with_wallet StringToNumber_le_0 this fetch req
              H1 H2 Hw) as (merged & Hget & ->).
  rewrite (Hget "amount"), (Hget "email"), Ha.
  cbn [bind ret truthy js_le_0].
  destruct (Z.eqb_spec n 0) as [-> | _]; [lia |]. cbn [negb bind ret].
  destruct (Z.leb_spec n 0); [lia |]. cbn [bind ret].
  destruct He as [He | (address & He & Hvalid)].
  - rewrite He. reflexivity.
  - rewrite He. cbn [truthy].
    destruct (String.eqb_spec address "") as [-> | _];
      [discriminate Hvalid |].
    cbn [negb to_string ToString bind ret]. rewrite Hvalid. reflexivity.
Qed.

Lemma initPayment_sends_a_valid_request_witness :
  initPayment no_string_conversion sample_sdk_with_wallet always_200_null
    (VObj [("amount", VNum 1000); ("email", VStr "test@example.com")])
  = wrapResponse
      (request sample_sdk_with_wallet always_200_null
         "/payments/init-payment").
Proof.
  apply (initPayment_sends_a_valid_request no_string_conversion
           sample_sdk_with_wallet always_200_null
           (VObj [("amount", VNum 1000); ("email", VStr "test@example.com")])
           1000);
    try discriminate; try reflexivity; try lia.
  right. exists "test@example.com". split; reflexivity.
Defined.

(* ================================================================== *)
(** ** Properties of the payment queries *)
(* ================================================================== *)

(** X20. [getPaymentDetails] rejects an identifier that is empty or holds
    nothing but white space, with the validation error on the identifier and
    without arming a timer or calling the transport; for any other identifier
    its outcome is the wrapped outcome of the request to
    [/payments/{paymentId}]. *)
Theorem getPaymentDetails_validates_the_identifier
    (this : KonnectSDK) (fetch : Z -> exn Response) (paymentId : string) :
  getPaymentDetails this fetch paymentId
  = if blank paymentId
    then ([], ret (validation_outcome "paymentId is required"))
    else wrapResponse (request this fetch ("/payments/" ++ paymentId)).
Proof.
  unfold getPaymentDetails, validatePaymentId.
  rewrite empty_or_trims_to_empty.
  destruct (blank paymentId); reflexivity.
Qed.

(** X21. The throwing variant checks the identifier inline and agrees with
    the envelope variant: [getPaymentDetails] is [getPaymentDetailsOrThrow]
    wrapped. *)
Theorem getPaymentDetails_wraps_the_throwing_variant
    (this : KonnectSDK) (fetch : Z -> exn Response) (paymentId : string) :
  getPaymentDetails this fetch paymentId
  = wrapResponse (getPaymentDetailsOrThrow this fetch paymentId).
Proof.
  unfold getPaymentDetails, getPaymentDetailsOrThrow, validatePaymentId.
  destruct ((paymentId =? "")%string || (trim paymentId =? "")%string);
    reflexivity.
Qed.

(** The outcome of [isPaymentCompleted] when the request returns. *)
Lemma isPaymentCompleted_of_result this fetch paymentId evs result :
  request this fetch ("/payments/" ++ paymentId) = (evs, ret result) ->
  isPaymentCompleted this fetch paymentId
  = wrapResponse
      (evs,
       payment <- get_prop result "payment" ;;
       st <- get_prop payment "status" ;;
       ret (VBool (strict_eq_string st "completed"))).
Proof. unfold isPaymentCompleted. now intros ->. Qed.

(** X22. When the request returns a payload with a [payment] whose [status]
    can be read, [isPaymentCompleted] returns the success arm with a boolean,
    which is [true] exactly when the status is the string [completed]. *)
Theorem isPaymentCompleted_tests_the_status
    (this : KonnectSDK) (fetch : Z -> exn Response) (paymentId : string)
    (evs : list event) (result payment st : jsval) :
  request this fetch ("/payments/" ++ paymentId) = (evs, ret result) ->
  get_prop result "payment" = ret payment ->
  get_prop payment "status" = ret st ->
  exists b,
    isPaymentCompleted this fetch paymentId
    = (evs, ret (mkApiResponse (VBool b) None))
    /\ (b = true <-> st = VStr "completed").
Proof.
  intros Hreq Hp Hs.
  rewrite (isPaymentCompleted_of_result _ _ _ _ _ Hreq), Hp.
  cbn [bind ret]. rewrite Hs.
  exists (strict_eq_string st "completed"). split; [reflexivity |].
  destruct st; simpl; try (split; discriminate).
  split.
  - intros H. apply String.eqb_eq in H. now subst.
  - intros [= ->]. reflexivity.
Qed.

Lemma isPaymentCompleted_tests_the_status_witness :
  exists b,
    isPaymentCompleted sample_sdk first_500_then_completed "p1"
    = ([EvSetTimeout 30000;
        EvFetch (BASE_URLS sandbox ++ "/payments/p1"); EvClearTimeout;
        EvSleep 1000;
        EvFetch (BASE_URLS sandbox ++ "/payments/p1"); EvClearTimeout],
       ret (mkApiResponse (VBool b) None))
    /\ (b = true <-> VStr "completed" = VStr "completed").
Proof.
  apply (isPaymentCompleted_tests_the_status sample_sdk
           first_500_then_completed "p1" _
           (VObj [("payment", VObj [("status", VStr "completed")])])
           (VObj [("status", VStr "completed")]));
    reflexivity.
Defined.

(** X23. When the request returns a payload whose [payment] is missing or
    [null], reading the status raises a [TypeError] inside the wrapped
    operation: [isPaymentCompleted] returns the error arm with the code
    UNKNOWN_ERROR, no status code, no details, and as message the message of
    that very [TypeError]. *)
Theorem isPaymentCompleted_on_a_payload_without_payment
    (this : KonnectSDK) (fetch : Z -> exn Response) (paymentId : string)
    (evs : list event) (result payment : jsval) :
  request this fetch ("/payments/" ++ paymentId) = (evs, ret result) ->
  get_prop result "payment" = ret payment ->
  payment = VUndefined \/ payment = VNull ->
  exists msg,
    get_prop payment "status" = raise (ThrowError "TypeError" msg)
    /\ isPaymentCompleted this fetch paymentId
       = (evs,
          ret (mkApiResponse VNull
                 (Some (mkKonnectError msg None (VStr "UNKNOWN_ERROR")
                          VUndefined)))).
Proof.
  intros Hreq Hp Hmissing.
  rewrite (isPaymentCompleted_of_result _ _ _ _ _ Hreq), Hp.
  destruct Hmissing as [-> | ->]; eexists; split; reflexivity.
Qed.

Lemma isPaymentCompleted_on_a_payload_without_payment_witness :
  exists msg,
    get_prop VUndefined "status" = raise (ThrowError "TypeError" msg)
    /\ isPaymentCompleted sample_sdk always_200_empty "p1"
       = ([EvSetTimeout 30000;
           EvFetch (BASE_URLS sandbox ++ "/payments/p1"); EvClearTimeout],
          ret (mkApiResponse VNull
                 (Some (mkKonnectError msg None (VStr "UNKNOWN_ERROR")
                          VUndefined)))).
Proof.
  apply (isPaymentCompleted_on_a_payload_without_payment sample_sdk
           always_200_empty "p1" _ (VObj []) VUndefined);
    [reflexivity | reflexivity | left; reflexivity].
Defined.

(** X24. Unlike [getPaymentDetails], [isPaymentCompleted] does not validate
    the identifier: for a blank identifier the former performs no effect at
    all, while the latter, on an instance that allows at least one attempt,
    arms the timer and calls the transport at [/payments/{paymentId}]. *)
Theorem isPaymentCompleted_does_not_validate_the_identifier
    (this : KonnectSDK) (fetch : Z -> exn Response) (paymentId : string) :
  blank paymentId = true -> 1 <= sdk_retryAttempts this ->
  fst (getPaymentDetails this fetch paymentId) = []
  /\ exists evs,
       fst (isPaymentCompleted this fetch paymentId)
       = EvSetTimeout (sdk_timeout this)
           :: EvFetch (sdk_baseUrl this ++ "/payments/" ++ paymentId) :: evs.
Proof.
  intros Hb HR. split.
  - unfold getPaymentDetails, validatePaymentId.
    rewrite empty_or_trims_to_empty, Hb. reflexivity.
  - unfold isPaymentCompleted, request.
    destruct (makeRequest_first_attempt fetch
                (sdk_baseUrl this ++ "/payments/" ++ paymentId)
                (mkConfig (sdk_timeout this) (sdk_retryAttempts this)) HR)
      as (evs & out & ->).
    exists evs. reflexivity.
Qed.

Lemma isPaymentCompleted_does_not_validate_the_identifier_witness :
  fst (getPaymentDetails sample_sdk always_500 " ") = []
  /\ exists evs,
       fst (isPaymentCompleted sample_sdk always_500 " ")
       = EvSetTimeout 30000
           :: EvFetch (BASE_URLS sandbox ++ "/payments/" ++ " ") :: evs.
Proof.
  apply (isPaymentCompleted_does_not_validate_the_identifier sample_sdk
           always_500 " ").
  - reflexivity.
  - simpl. lia.
Defined.

(** X25. When the transport raises nothing but instances of [Error], every
    error that [getPaymentDetails] returns comes from a classified error: the
    validation error on the identifier, a client error (status in 400..499
    other than 429) from the classifier, or the generic REQUEST_FAILED error;
    the fallback code UNKNOWN_ERROR of the envelope is never used. *)
Theorem getPaymentDetails_returns_classified_errors
    (this : KonnectSDK) (fetch : Z -> exn Response) (paymentId : string)
    (r : ApiResponse) (err : KonnectError) :
  raises_Errors_only fetch ->
  snd (getPaymentDetails this fetch paymentId) = ret r ->
  error r = Some err ->
  exists e,
    err = toJSON e
    /\ (e = mkSDKError "ValidationError" "paymentId is required" (Some 400)
              (VStr "VALIDATION_ERROR") VUndefined
        \/ client_error_status e
        \/ exists msg, e = request_failed msg).
Proof.
  intros Hfetch. unfold getPaymentDetails, validatePaymentId.
  destruct ((paymentId =? "")%string || (trim paymentId =? "")%string).
  - simpl. intros [= <-]. simpl. intros [= <-].
    eexists. split; [reflexivity | auto].
  - unfold request.
    pose proof (makeRequest_failure_cases fetch
                  (sdk_baseUrl this ++ "/payments/" ++ paymentId)
                  (mkConfig (sdk_timeout this) (sdk_retryAttempts this)))
      as Hcases.
    destruct (makeRequest fetch
                (sdk_baseUrl this ++ "/payments/" ++ paymentId)
                (mkConfig (sdk_timeout this) (sdk_retryAttempts this)))
      as [evs [failure | body]]; simpl.
    + destruct (Hcases failure Hfetch eq_refl) as (e & -> & He).
      simpl. intros [= <-]. simpl. intros [= <-].
      exists e. split; [reflexivity | auto].
    + intros [= <-]. discriminate.
Qed.

Lemma getPaymentDetails_returns_classified_errors_witness :
  exists e,
    mkKonnectError "HTTP 500: Internal Server Error" None
      (VStr "REQUEST_FAILED") VUndefined
    = toJSON e
    /\ (e = mkSDKError "ValidationError" "paymentId is required" (Some 400)
              (VStr "VALIDATION_ERROR") VUndefined
        \/ client_error_status e
        \/ exists msg, e = request_failed msg).
Proof.
  apply (getPaymentDetails_returns_classified_errors sample_sdk always_500
           "p1"
           (mkApiResponse VNull
              (Some (mkKonnectError "HTTP 500: Internal Server Error" None
                       (VStr "REQUEST_FAILED") VUndefined)))).
  - intros j. simpl. exact I.
  - reflexivity.
  - reflexivity.
Defined.

Lemma validateConfig_passed config :
  validateConfig config = ret tt ->
  blank (cfg_apiKey config) = false
  /\ num_lt0 (cfg_timeout config) = false
  /\ num_lt0 (cfg_retryAttempts config) = false.
Proof.
  unfold validateConfig.
  rewrite empty_or_trims_to_empty, !num_truthy_lt0.
  destruct (blank (cfg_apiKey config)); [discriminate |].
  destruct (num_lt0 (cfg_timeout config)); [discriminate |].
  destruct (num_lt0 (cfg_retryAttempts config)); [discriminate |].
  auto.
Qed.


(* ================================================================== *)
(** ** Number-valued configurations: the executor *)
(* ================================================================== *)

Lemma attempt_lt_of_Z attempt R :
  attempt_lt attempt (of_Z R) = (attempt <? R).
Proof.
  unfold attempt_lt, of_Z, Qle_bool. simpl. rewrite !Z.mul_1_r.
  now rewrite Z.ltb_antisym.
Qed.

Lemma attempt_is_last_of_Z attempt R :
  attempt_is_last attempt (of_Z R) = (attempt =? R - 1).
Proof.
  unfold attempt_is_last, of_Z.
  destruct (Z.eqb_spec attempt (R - 1)) as [-> | N].
  - apply Qeq_bool_iff. unfold Qeq. simpl. lia.
  - destruct (Qeq_bool (inject_Z attempt) (inject_Z R - inject_Z 1)) eqn:E;
      [| reflexivity].
    apply Qeq_bool_iff in E. unfold Qeq in E. simpl in E. lia.
Qed.

(** On a whole number of attempts the loop written with the tests of the
    source is the counted loop, and fuel for that many iterations suffices. *)
Lemma retry_loopN_of_Z fetch url t R n :
  forall fuel attempt last,
    attempt + Z.of_nat n = R -> (n <= fuel)%nat ->
    retry_loopN fetch url (mkConfigN t (of_Z R)) fuel attempt last
    = Some (retry_loop fetch url (mkConfig t R) n attempt last).
Proof.
  induction n as [| n IH]; intros fuel attempt last HR Hfuel.
  - assert (Hlt : attempt_lt attempt (of_Z R) = false)
      by (rewrite attempt_lt_of_Z; apply Z.ltb_ge; lia).
    destruct fuel; cbn [retry_loopN retryAttemptsN]; rewrite Hlt;
      reflexivity.
  - assert (Hlt : attempt_lt attempt (of_Z R) = true)
      by (rewrite attempt_lt_of_Z; apply Z.ltb_lt; lia).
    destruct fuel as [| fuel]; [lia |].
    cbn [retry_loopN retry_loop retryAttemptsN retryAttempts].
    rewrite Hlt. cbn [negb].
    destruct (try_block url (fetch attempt)) as [evs [failure | body]];
      [| reflexivity].
    destruct (is_client_error failure); [reflexivity |].
    rewrite attempt_is_last_of_Z.
    destruct (attempt =? R - 1); [reflexivity |].
    rewrite (IH fuel (attempt + 1) (Some failure)) by lia.
    destruct (retry_loop fetch url (mkConfig t R) n (attempt + 1)
                (Some failure)) as [evs' r].
    reflexivity.
Qed.

(** On a whole number of attempts [makeRequestN] is [makeRequest]. *)
Lemma makeRequestN_of_Z fetch url t R fuel :
  (Z.to_nat R <= fuel)%nat ->
  makeRequestN fetch url (mkConfigN t (of_Z R)) fuel
  = Some (makeRequest fetch url (mkConfig t R)).
Proof.
  intros Hfuel. unfold makeRequestN, makeRequest.
  cbn [timeoutN timeout retryAttempts].
  destruct (Z.leb_spec 0 R) as [Hpos | Hneg].
  - rewrite (retry_loopN_of_Z fetch url t R (Z.to_nat R)) by lia.
    destruct (retry_loop fetch url (mkConfig t R) (Z.to_nat R) 0 None)
      as [evs [body | failure | last]]; reflexivity.
  - replace (Z.to_nat R) with O by lia.
    assert (Hlt : attempt_lt 0 (of_Z R) = false)
      by (rewrite attempt_lt_of_Z; apply Z.ltb_ge; lia).
    destruct fuel; cbn [retry_loopN retryAttemptsN retry_loop];
      rewrite Hlt; reflexivity.
Qed.

(** With [Infinity] attempts and a transport that always answers 500 the
    loop does not end, whatever the number of iterations granted. *)
Lemma infinitely_many_attempts_never_end url t fuel :
  makeRequestN always_500 url (mkConfigN t PosInfinity) fuel = None.
Proof.
  unfold makeRequestN.
  assert (H : forall attempt last,
             retry_loopN always_500 url (mkConfigN t PosInfinity) fuel
               attempt last = None).
  { induction fuel as [| fuel IH]; intros attempt last; [reflexivity |].
    cbn [retry_loopN retryAttemptsN attempt_lt negb attempt_is_last].
    unfold always_500 at 1. cbn [try_block ret].
    change (negb (ok response_500)) with true. cbv iota.
    change (is_client_error (handleErrorResponse response_500)) with false.
    cbv iota. unfold raise. rewrite IH. reflexivity. }
  now rewrite H.
Qed.

(** C2 at a failing input.  The constructor accepts [retryAttempts: 2.5] and
    keeps it.  With it and a transport that answers 500 to every attempt,
    the loop test lets attempts 0, 1 and 2 run, three transport calls, and
    its exit [attempt === config.retryAttempts - 1] never holds: the call
    sleeps 1000, 2000 and, after its last attempt, 4000 ms before it throws
    REQUEST_FAILED. *)
Theorem fractional_attempts_sleep_after_the_last_attempt
    (url : string) (t : Z) :
  new_KonnectSDKN
    (mkKonnectConfigN "key" None None (Some (Finite (5 # 2))) None)
  = ret (mkKonnectSDKN "key" (BASE_URLS sandbox) (of_Z 30000)
           (Finite (5 # 2)) (VObj []))
  /\ makeRequestN always_500 url (mkConfigN t (Finite (5 # 2))) 3
     = Some ([EvSetTimeout t;
              EvFetch url; EvClearTimeout; EvSleep 1000;
              EvFetch url; EvClearTimeout; EvSleep 2000;
              EvFetch url; EvClearTimeout; EvSleep 4000;
              EvClearTimeout],
             raise (ThrowSDK
                      (request_failed "HTTP 500: Internal Server Error")))
  /\ option_map
       (fun out => (schedule (fst out), fetch_count (fst out),
                    sleeps (fst out)))
       (makeRequestN always_500 url (mkConfigN t (Finite (5 # 2))) 3)
     = Some ((backoff_from url 0 3 ++ [EvSleep 4000])%list, 3%nat,
             [1000; 2000; 4000]).
Proof. repeat split. Qed.

(** X2. For every transport and every configuration whose [retryAttempts]
    is a whole number, the call ends (fuel for that many iterations
    suffices), and its transport calls and sleeps form the backoff schedule
    of some number [k] of attempts, at most [retryAttempts]: never more
    transport calls than attempts allowed, a sleep only between two calls,
    the sleeps being 1000, 2000, 4000, ... ms in that order. *)
Theorem whole_attempts_follow_a_backoff_schedule
    (fetch : Z -> exn Response) (url : string) (t R : Z) (fuel : nat) :
  (Z.to_nat R <= fuel)%nat ->
  exists out k,
    makeRequestN fetch url (mkConfigN t (of_Z R)) fuel = Some out
    /\ (k <= Z.to_nat R)%nat
    /\ schedule (fst out) = backoff_from url 0 k
    /\ fetch_count (fst out) = k
    /\ sleeps (fst out) = backoff_delays (Nat.pred k).
Proof.
  intros Hfuel. rewrite (makeRequestN_of_Z fetch url t R fuel Hfuel).
  destruct (makeRequest_schedule_is_a_backoff_schedule fetch url
              (mkConfig t R)) as (k & Hk & Hs & Hc & Hsl).
  exists (makeRequest fetch url (mkConfig t R)), k. auto.
Qed.

Lemma whole_attempts_follow_a_backoff_schedule_witness :
  exists out k,
    makeRequestN always_500 "u" (mkConfigN 30000 (of_Z 3)) 3 = Some out
    /\ (k <= 3)%nat
    /\ schedule (fst out) = backoff_from "u" 0 k
    /\ fetch_count (fst out) = k
    /\ sleeps (fst out) = backoff_delays (Nat.pred k).
Proof.
  apply (whole_attempts_follow_a_backoff_schedule always_500 "u" 30000 3 3).
  simpl. lia.
Defined.

(** The schedule of the loop, whenever it ends: a backoff schedule, with at
    most one more sleep behind it. *)
Lemma retry_loopN_schedule fetch url config fuel :
  forall attempt last out,
    retry_loopN fetch url config fuel attempt last = Some out ->
    exists k,
      schedule (fst out) = backoff_from url attempt k
      \/ schedule (fst out)
         = (backoff_from url attempt (S k)
              ++ [EvSleep (2 ^ (attempt + Z.of_nat k) * 1000)])%list.
Proof.
  induction fuel as [| fuel IH]; intros attempt last out;
    cbn [retry_loopN];
    (destruct (negb (attempt_lt attempt (retryAttemptsN config)));
     [intros [= <-]; exists O; left; reflexivity |]);
    [discriminate |].
  pose proof (try_block_schedule url (fetch attempt)) as Hs.
  destruct (try_block url (fetch attempt)) as [evs [failure | body]];
    simpl in Hs; [| intros [= <-]; exists 1%nat; left; exact Hs].
  destruct (is_client_error failure);
    [intros [= <-]; exists 1%nat; left; exact Hs |].
  destruct (attempt_is_last attempt (retryAttemptsN config));
    [intros [= <-]; exists 1%nat; left; exact Hs |].
  destruct (retry_loopN fetch url config fuel (attempt + 1) (Some failure))
    as [[evs' r] |] eqn:E; [| discriminate].
  intros [= <-]. destruct (IH _ _ _ E) as [k Hk]. simpl fst in *.
  rewrite schedule_app, Hs. cbn [sleep schedule filter app].
  fold (schedule evs').
  destruct Hk as [Hk | Hk]; rewrite Hk.
  - destruct k as [| k].
    + exists O. right. rewrite Z.add_0_r. reflexivity.
    + exists (S (S k)). left. reflexivity.
  - exists (S k). right.
    replace (attempt + 1 + Z.of_nat k) with (attempt + Z.of_nat (S k))
      by lia.
    reflexivity.
Qed.

(** X28. Whenever a call of [makeRequest] ends, for any number of attempts
    allowed, whole or not, its transport calls and sleeps form the backoff
    schedule of some number of attempts, followed by at most one more sleep:
    a sleep never follows another sleep, and the sleeps are 1000, 2000,
    4000, ... ms in that order. *)
Theorem schedule_of_a_call_that_ends
    (fetch : Z -> exn Response) (url : string) (config : RequestConfigN)
    (fuel : nat) (out : io jsval) :
  makeRequestN fetch url config fuel = Some out ->
  exists k,
    schedule (fst out) = backoff_from url 0 k
    \/ schedule (fst out)
       = (backoff_from url 0 (S k) ++ [EvSleep (2 ^ Z.of_nat k * 1000)])%list.
Proof.
  unfold makeRequestN.
  destruct (retry_loopN fetch url config fuel 0 None) as [[evs r] |] eqn:E;
    [| discriminate].
  destruct (retry_loopN_schedule _ _ _ _ _ _ _ E) as [k Hk].
  simpl fst in Hk. rewrite Z.add_0_l in Hk.
  assert (Hc : schedule (evs ++ [EvClearTimeout]) = schedule evs)
    by (rewrite schedule_app; simpl; apply app_nil_r).
  destruct r as [body | failure | last]; intros [= <-]; exists k; simpl fst;
    cbn [schedule filter]; fold (schedule evs);
    fold (schedule (evs ++ [EvClearTimeout])); rewrite ?Hc; exact Hk.
Qed.

Lemma schedule_of_a_call_that_ends_witness :
  makeRequestN always_500 "u" (mkConfigN 30000 (Finite (5 # 2))) 3
  = Some ([EvSetTimeout 30000;
           EvFetch "u"; EvClearTimeout; EvSleep 1000;
           EvFetch "u"; EvClearTimeout; EvSleep 2000;
           EvFetch "u"; EvClearTimeout; EvSleep 4000;
           EvClearTimeout],
          raise (ThrowSDK
                   (request_failed "HTTP 500: Internal Server Error")))
  /\ exists k,
       [EvFetch "u"; EvSleep 1000; EvFetch "u"; EvSleep 2000;
        EvFetch "u"; EvSleep 4000]
       = backoff_from "u" 0 k
       \/ [EvFetch "u"; EvSleep 1000; EvFetch "u"; EvSleep 2000;
           EvFetch "u"; EvSleep 4000]
          = (backoff_from "u" 0 (S k)
               ++ [EvSleep (2 ^ Z.of_nat k * 1000)])%list.
Proof.
  split; [reflexivity |].
  apply (schedule_of_a_call_that_ends always_500 "u"
           (mkConfigN 30000 (Finite (5 # 2))) 3
           ([EvSetTimeout 30000;
             EvFetch "u"; EvClearTimeout; EvSleep 1000;
             EvFetch "u"; EvClearTimeout; EvSleep 2000;
             EvFetch "u"; EvClearTimeout; EvSleep 4000;
             EvClearTimeout],
            raise (ThrowSDK
                     (request_failed "HTTP 500: Internal Server Error")))).
  reflexivity.
Defined.

(** X4. With a whole number of attempts allowed, a 2xx answer whose body
    fails to parse is retried like a transport failure: when every attempt
    is answered with a 2xx status and a body whose parsing raises an
    [Error], the call ends after all its attempts, with the backoff sleeps
    between them and none after the last, and throws the generic
    REQUEST_FAILED error, whose message is the message of the last parse
    failure (the fallback when that is empty). *)
Theorem unparsable_success_bodies_are_retried_on_whole_attempts
    (fetch : Z -> exn Response) (url : string) (t R : Z) (fuel : nat) :
  1 <= R -> (Z.to_nat R <= fuel)%nat ->
  (forall j, 0 <= j < R ->
     exists response nm m,
       fetch j = inr response /\ ok response = true
       /\ json response = raise (ThrowError nm m)) ->
  exists evs response nm m,
    fetch (R - 1) = inr response
    /\ json response = raise (ThrowError nm m)
    /\ makeRequestN fetch url (mkConfigN t (of_Z R)) fuel
       = Some (EvSetTimeout t :: evs, raise (ThrowSDK (request_failed m)))
    /\ schedule evs = backoff_from url 0 (Z.to_nat R).
Proof.
  intros HR Hfuel Hall.
  rewrite (makeRequestN_of_Z fetch url t R fuel Hfuel).
  destruct (unparsable_success_bodies_are_retried fetch url (mkConfig t R)
              HR Hall) as (evs & r & nm & m & Hr & Hj & Hm & Hs).
  exists evs, r, nm, m. cbn [retryAttempts timeout] in *.
  split; [exact Hr |]. split; [exact Hj |]. split; [now rewrite Hm |].
  exact Hs.
Qed.

Lemma unparsable_success_bodies_are_retried_on_whole_attempts_witness :
  exists evs response nm m,
    always_200_unparsed (2 - 1) = inr response
    /\ json response = raise (ThrowError nm m)
    /\ makeRequestN always_200_unparsed "u" (mkConfigN 30000 (of_Z 2)) 2
       = Some (EvSetTimeout 30000 :: evs,
               raise (ThrowSDK (request_failed m)))
    /\ schedule evs = [EvFetch "u"; EvSleep 1000; EvFetch "u"].
Proof.
  apply (unparsable_success_bodies_are_retried_on_whole_attempts
           always_200_unparsed "u" 30000 2 2).
  - lia.
  - simpl. lia.
  - intros j _. exists response_200_unparsed. do 2 eexists.
    repeat split; reflexivity.
Defined.

(* ================================================================== *)
(** ** Number-valued configurations: the constructor *)
(* ================================================================== *)

Lemma number_truthy_of_Z n : number_truthy (of_Z n) = negb (n =? 0).
Proof.
  unfold number_truthy, of_Z. f_equal.
  destruct (Z.eqb_spec n 0) as [-> | N]; [reflexivity |].
  destruct (Qeq_bool (inject_Z n) (inject_Z 0)) eqn:E; [| reflexivity].
  apply Qeq_bool_iff in E. unfold Qeq in E. simpl in E. lia.
Qed.

Lemma number_lt_0_of_Z n : number_lt_0 (of_Z n) = (n <? 0).
Proof.
  unfold number_lt_0, of_Z, Qle_bool. simpl. rewrite Z.mul_1_r.
  now rewrite Z.ltb_antisym.
Qed.

Lemma negative_of_Z x :
  negative (option_map of_Z x) = (num_truthy x && num_lt0 x)%bool.
Proof.
  destruct x as [n |]; cbn [option_map negative num_truthy num_lt0];
    [| reflexivity].
  now rewrite number_truthy_of_Z, number_lt_0_of_Z.
Qed.

Lemma number_or_of_Z x d :
  number_or (option_map of_Z x) (of_Z d) = of_Z (num_or x d).
Proof.
  destruct x as [n |]; cbn [option_map number_or num_or]; [| reflexivity].
  rewrite number_truthy_of_Z. destruct (negb (n =? 0)); reflexivity.
Qed.

(** On whole numbers the number-valued constructor is the constructor above:
    it throws the same error or builds the same instance. *)
Lemma new_KonnectSDKN_of_Z config :
  new_KonnectSDKN (config_of_Z config)
  = match new_KonnectSDK config with
    | inl failure => inl failure
    | inr this => inr (sdk_of_Z this)
    end.
Proof.
  unfold new_KonnectSDKN, new_KonnectSDK, validateConfigN, validateConfig.
  cbn [config_of_Z cfgN_apiKey cfgN_timeout cfgN_retryAttempts
       cfgN_environment cfgN_defaults].
  rewrite !negative_of_Z, !number_or_of_Z.
  destruct ((cfg_apiKey config =? "")%string
            || (trim (cfg_apiKey config) =? "")%string); [reflexivity |].
  destruct (num_truthy (cfg_timeout config) && num_lt0 (cfg_timeout config));
    [reflexivity |].
  destruct (num_truthy (cfg_retryAttempts config)
            && num_lt0 (cfg_retryAttempts config)); reflexivity.
Qed.

Lemma truthy_not_negative_is_positive x :
  number_truthy x = true -> number_lt_0 x = false ->
  number_positive x = true.
Proof.
  destruct x as [q | | |]; simpl; try discriminate; auto.
  intros Hnz Hge. apply negb_true_iff in Hnz. apply negb_false_iff in Hge.
  apply negb_true_iff.
  destruct (Qle_bool q (inject_Z 0)) eqn:Hle; [| reflexivity].
  apply Qle_bool_iff in Hle, Hge.
  assert (Heq : Qeq_bool q (inject_Z 0) = true)
    by (apply Qeq_bool_iff; now apply Qle_antisym).
  congruence.
Qed.

Lemma number_or_positive x d :
  negative x = false -> number_positive d = true ->
  number_positive (number_or x d) = true.
Proof.
  destruct x as [n |]; simpl; [| auto].
  destruct (number_truthy n) eqn:T; simpl; [| auto].
  intros Hn _. now apply truthy_not_negative_is_positive.
Qed.

Lemma validateConfigN_passed config :
  validateConfigN config = ret tt ->
  blank (cfgN_apiKey config) = false
  /\ negative (cfgN_timeout config) = false
  /\ negative (cfgN_retryAttempts config) = false.
Proof.
  unfold validateConfigN. rewrite empty_or_trims_to_empty.
  destruct (blank (cfgN_apiKey config)); [discriminate |].
  destruct (negative (cfgN_timeout config)); [discriminate |].
  destruct (negative (cfgN_retryAttempts config)); [discriminate |].
  auto.
Qed.

(** X26. An instance that the constructor builds keeps the API key of the
    configuration, which is not blank.  A timeout and a number of attempts
    that are given and truthy (neither zero nor [NaN]) are not negative and
    are kept as they are, whole or not; one that is absent, zero or [NaN] is
    replaced by the default, 30000 and 3.  So the timeout and the number of
    attempts of an instance are always positive numbers. *)
Theorem constructor_keeps_the_truthy_numbers
    (config : KonnectConfigN) (this : KonnectSDKN) :
  new_KonnectSDKN config = ret this ->
  sdkN_apiKey this = cfgN_apiKey config
  /\ blank (sdkN_apiKey this) = false
  /\ sdkN_timeout this
     = match cfgN_timeout config with
       | Some x => if number_truthy x then x else of_Z 30000
       | None => of_Z 30000
       end
  /\ sdkN_retryAttempts this
     = match cfgN_retryAttempts config with
       | Some x => if number_truthy x then x else of_Z 3
       | None => of_Z 3
       end
  /\ (forall x, cfgN_timeout config = Some x -> number_truthy x = true ->
                number_lt_0 x = false)
  /\ (forall x, cfgN_retryAttempts config = Some x ->
                number_truthy x = true -> number_lt_0 x = false)
  /\ number_positive (sdkN_timeout this) = true
  /\ number_positive (sdkN_retryAttempts this) = true.
Proof.
  unfold new_KonnectSDKN.
  destruct (validateConfigN config) as [t | []] eqn:V; [discriminate |].
  destruct (validateConfigN_passed config V) as (Vk & Vt & Vr).
  cbn [bind ret]. intros [= <-].
  cbn [sdkN_apiKey sdkN_timeout sdkN_retryAttempts].
  split; [reflexivity |]. split; [exact Vk |].
  split; [reflexivity |]. split; [reflexivity |].
  split.
  { intros x Hx Ht. rewrite Hx in Vt. simpl in Vt. now rewrite Ht in Vt. }
  split.
  { intros x Hx Ht. rewrite Hx in Vr. simpl in Vr. now rewrite Ht in Vr. }
  split; apply number_or_positive; auto.
Qed.

Lemma constructor_keeps_the_truthy_numbers_witness :
  sdkN_apiKey
    (mkKonnectSDKN "key" (BASE_URLS sandbox) (of_Z 30000) (Finite (5 # 2))
       (VObj []))
  = "key"
  /\ blank "key" = false
  /\ of_Z 30000 = of_Z 30000
  /\ Finite (5 # 2) = Finite (5 # 2)
  /\ (forall x, Some NaN = Some x -> number_truthy x = true ->
                number_lt_0 x = false)
  /\ (forall x, Some (Finite (5 # 2)) = Some x ->
                number_truthy x = true -> number_lt_0 x = false)
  /\ number_positive (of_Z 30000) = true
  /\ number_positive (Finite (5 # 2)) = true.
Proof.
  apply (constructor_keeps_the_truthy_numbers
           (mkKonnectConfigN "key" None (Some NaN) (Some (Finite (5 # 2)))
              None)
           (mkKonnectSDKN "key" (BASE_URLS sandbox) (of_Z 30000)
              (Finite (5 # 2)) (VObj []))).
  reflexivity.
Defined.

(** X27. The defaults of an instance that the constructor builds are never
    [null] nor [undefined] (a falsy [defaults] of the configuration is
    replaced by the empty object), so [mergeWithDefaults] raises on no
    request. *)
Theorem constructed_instances_merge_every_request
    (config : KonnectConfig) (this : KonnectSDK) :
  new_KonnectSDK config = ret this ->
  truthy (sdk_defaults this) = true
  /\ forall req, exists merged, mergeWithDefaults this req = ret merged.
Proof.
  unfold new_KonnectSDK.
  destruct (validateConfig config) as [t | []]; [discriminate |].
  cbn [bind ret]. intros [= <-]. cbn [sdk_defaults].
  assert (H : truthy match cfg_defaults config with
                     | Some d => js_or d (VObj [])
                     | None => VObj []
                     end = true).
  { destruct (cfg_defaults config) as [d |]; [| reflexivity].
    unfold js_or. destruct (truthy d) eqn:T; [exact T | reflexivity]. }
  split; [exact H |].
  intros req. apply mergeWithDefaults_defined; cbn [sdk_defaults];
    intros E; rewrite E in H; discriminate.
Qed.

Lemma constructed_instances_merge_every_request_witness :
  truthy (VObj []) = true
  /\ forall req,
       exists merged,
         mergeWithDefaults
           (mkKonnectSDK "key" (BASE_URLS sandbox) 30000 3 (VObj [])) req
         = ret merged.
Proof.
  apply (constructed_instances_merge_every_request
           (mkKonnectConfig "key" None None None (Some VNull))
           (mkKonnectSDK "key" (BASE_URLS sandbox) 30000 3 (VObj []))).
  reflexivity.
Defined.
